(** * fix_app_icon.py: flattening app icons onto white

    A shallow embedding of [fix_app_icon.py].  The script has two
    functions: [remove_transparency], which opens an image with Pillow,
    pastes it on a white RGB canvas through its own alpha band and saves
    the canvas as PNG, all inside one [try ... except Exception]; and
    [main], which checks the icon directory, then for each of three fixed
    names renames the file to [<path>.backup] and flattens the backup
    back to [<path>].

    The embedding has three layers:
    - 8-bit images and the Pillow operations the script calls
      ([Image.open], [convert], [Image.new], [split], [paste], [save]);
    - a world made of a file system (path to node), a schedule of
      injected library faults and a trace of observable events, threaded
      through a state-and-exception monad;
    - the two functions of the script, written call by call;
      [remove_transparency] takes the encoding of the console it prints
      to, and [main] is run on a UTF-8 console. *)

From Stdlib Require Import ZArith QArith Qround Lia Ascii String.
From stdpp Require Import gmap strings list fin_maps.

Local Open Scope Z_scope.

(** ** Images *)

Module Pil.

(** The 8-bit grey and colour modes, without and with an alpha band.
    Palette, bilevel and 16-bit images are left out, and so is the
    transparent colour a PNG without alpha band may name in a [tRNS]
    chunk: an image of mode [L] or [RGB] is one that names none. *)
Inductive mode := L | LA | RGB | RGBA.

Definition mode_eqb (a b : mode) : bool :=
  match a, b with
  | L, L | LA, LA | RGB, RGB | RGBA, RGBA => true
  | _, _ => false
  end.

(** Pixel data in row-major order; a sample is an 8-bit value held in [Z]. *)
Inductive raster :=
| RasterL (px : list Z)
| RasterLA (px : list (Z * Z))
| RasterRGB (px : list (Z * Z * Z))
| RasterRGBA (px : list (Z * Z * Z * Z)).

Record image := Image { size : nat * nat; im : raster }.

Definition image_mode (img : image) : mode :=
  match im img with
  | RasterL _ => L
  | RasterLA _ => LA
  | RasterRGB _ => RGB
  | RasterRGBA _ => RGBA
  end.

Definition has_alpha (img : image) : bool :=
  match image_mode img with
  | LA | RGBA => true
  | L | RGB => false
  end.

Definition npixels (img : image) : nat := (fst (size img) * snd (size img))%nat.

Definition raster_length (r : raster) : nat :=
  match r with
  | RasterL px => length px
  | RasterLA px => length px
  | RasterRGB px => length px
  | RasterRGBA px => length px
  end.

Definition sample_ok (v : Z) : Prop := 0 <= v <= 255.

Definition raster_ok (r : raster) : Prop :=
  match r with
  | RasterL px => Forall sample_ok px
  | RasterLA px => Forall (fun '(l, a) => sample_ok l /\ sample_ok a) px
  | RasterRGB px =>
      Forall (fun '(r, g, b) => sample_ok r /\ sample_ok g /\ sample_ok b) px
  | RasterRGBA px =>
      Forall (fun '(r, g, b, a) =>
                sample_ok r /\ sample_ok g /\ sample_ok b /\ sample_ok a) px
  end.

(** A decoded image: as many pixels as its size says, samples in 0..255. *)
Definition image_ok (img : image) : Prop :=
  raster_length (im img) = npixels img /\ raster_ok (im img).

(** [img.convert('RGBA')]: grey is replicated; an image with an alpha
    band keeps it, an image without one (and, as all images here,
    without a transparent colour) gets alpha 255. *)
Definition to_rgba (r : raster) : list (Z * Z * Z * Z) :=
  match r with
  | RasterL px => map (fun l => (l, l, l, 255)) px
  | RasterLA px => map (fun '(l, a) => (l, l, l, a)) px
  | RasterRGB px => map (fun '(r, g, b) => (r, g, b, 255)) px
  | RasterRGBA px => px
  end.

Definition convert_RGBA (img : image) : image :=
  Image (size img) (RasterRGBA (to_rgba (im img))).

(** [Image.new('RGB', size, color)]. *)
Definition new_RGB (sz : nat * nat) (color : Z * Z * Z) : image :=
  Image sz (RasterRGB (repeat color (fst sz * snd sz)%nat)).

(** [img.split()]: one single-band image per band, in band order. *)
Definition split (img : image) : list image :=
  let band (px : list Z) := Image (size img) (RasterL px) in
  match im img with
  | RasterL px => [band px]
  | RasterLA px => [band (map fst px); band (map snd px)]
  | RasterRGB px =>
      [band (map (fun '(r, _, _) => r) px);
       band (map (fun '(_, g, _) => g) px);
       band (map (fun '(_, _, b) => b) px)]
  | RasterRGBA px =>
      [band (map (fun '(r, _, _, _) => r) px);
       band (map (fun '(_, g, _, _) => g) px);
       band (map (fun '(_, _, b, _) => b) px);
       band (map (fun '(_, _, _, a) => a) px)]
  end.

(** Pillow's integer blend (libImaging, [ImagingUtils.h]):
    [DIV255(a, tmp) = (tmp = a + 128, ((tmp >> 8) + tmp) >> 8)] and
    [BLEND8(mask, in1, in2, tmp) = DIV255(in1 * (255 - mask) + in2 * mask, tmp)];
    the result is stored in a [UINT8]. *)
Definition DIV255 (a : Z) : Z :=
  let tmp := a + 128 in
  Z.shiftr (Z.shiftr tmp 8 + tmp) 8.

Definition BLEND8 (mask in1 in2 : Z) : Z :=
  Z.land (DIV255 (in1 * (255 - mask) + in2 * mask)) 255.

(** [paste_mask_L] of libImaging on an RGB canvas, an RGBA source and a
    mode-L mask: every band of the canvas is blended with the same band
    of the source through the mask sample. *)
Definition blend_pixel (a : Z) (out : Z * Z * Z) (inp : Z * Z * Z * Z) : Z * Z * Z :=
  let '(o0, o1, o2) := out in
  let '(i0, i1, i2, _) := inp in
  (BLEND8 a o0 i0, BLEND8 a o1 i1, BLEND8 a o2 i2).

Fixpoint paste_mask_L (out : list (Z * Z * Z)) (inp : list (Z * Z * Z * Z))
    (mask : list Z) : list (Z * Z * Z) :=
  match out, inp, mask with
  | o :: out', i :: inp', a :: mask' =>
      blend_pixel a o i :: paste_mask_L out' inp' mask'
  | _, _, _ => out
  end.

End Pil.

(** ** The world: file system, injected faults, observable events *)

(** A regular file either decodes to an image or holds bytes that Pillow
    does not identify as one. *)
Inductive file :=
| Png (img : Pil.image)
| Blob (bytes : string).

Inductive node :=
| File (f : file)
| Dir.

(** Observable events, oldest first: a line shown on the console, a
    rename carried out, a file opened for reading, a file opened for
    writing. *)
Inductive event :=
| EvPrint (line : string)
| EvRename (src dst : string)
| EvRead (path : string)
| EvWrite (path : string).

(** [fs] maps a path to what is there; it keeps no permissions and no
    parent links.  [faults] is the schedule of failures the environment
    injects into Pillow calls (a truncated stream, an out-of-memory, a
    full disk, a directory that cannot be written): each call takes the
    head, [Some msg] makes it raise with that message. *)
Record world := World {
  fs : gmap string node;
  faults : list (option string);
  trace : list event
}.

(** Exceptions derived from Python's [Exception], the ones [except
    Exception] catches: class name and [str(e)].  Signals delivered from
    outside ([KeyboardInterrupt], [SystemExit]) are not part of a run. *)
Inductive exn := Exception (cls msg : string).

Definition str (e : exn) : string := let 'Exception _ msg := e in msg.

(** ** A state-and-exception monad *)

Inductive outcome (A : Type) :=
| Normal (a : A) (w : world)
| Raise (e : exn) (w : world).
Arguments Normal {A} a w.
Arguments Raise {A} e w.

Definition M (A : Type) : Type := world -> outcome A.

Definition ret {A} (a : A) : M A := fun w => Normal a w.

Definition bind {A B} (m : M A) (k : A -> M B) : M B :=
  fun w =>
    match m w with
    | Normal a w' => k a w'
    | Raise e w' => Raise e w'
    end.

Definition raise {A} (e : exn) : M A := fun w => Raise e w.

(** [try: body except Exception as e: handler e]. *)
Definition try_except {A} (body : M A) (handler : exn -> M A) : M A :=
  fun w =>
    match body w with
    | Normal a w' => Normal a w'
    | Raise e w' => handler e w'
    end.

Declare Scope py_scope.
Delimit Scope py_scope with py.
Notation "x <- m ; k" := (bind m (fun x => k))
  (at level 100, m at next level, right associativity) : py_scope.
Notation "m ;; k" := (bind m (fun _ => k))
  (at level 100, right associativity) : py_scope.
Local Open Scope py_scope.

Definition world_of {A} (o : outcome A) : world :=
  match o with
  | Normal _ w => w
  | Raise _ w => w
  end.

Definition emit (ev : event) : M unit :=
  fun w => Normal tt (World (fs w) (faults w) (trace w ++ [ev])).

(** The encoding of the console [print] writes to.  Strings are held as
    UTF-8 bytes, so a byte of 128 or more belongs to a character outside
    ASCII. *)
Inductive console := Utf8 | Ascii.

Definition is_ascii (s : string) : bool :=
  forallb (fun c => (Ascii.nat_of_ascii c <? 128)%nat) (list_ascii_of_string s).

Definition encodable (c : console) (line : string) : bool :=
  match c with
  | Utf8 => true
  | Ascii => is_ascii line
  end.

(** [print(line)] on a console with encoding [c]: [sys.stdout] encodes
    with [errors='strict'], so a line the console cannot encode raises
    [UnicodeEncodeError] and nothing of it is shown.  (The real message
    also names the character and its position.) *)
Definition print_to (c : console) (line : string) : M unit :=
  if encodable c line then emit (EvPrint line)
  else raise (Exception "UnicodeEncodeError"
                "'ascii' codec can't encode character: ordinal not in range(128)").

(** [print(line)] on a UTF-8 console, which takes every line. *)
Definition print (line : string) : M unit := print_to Utf8 line.

(** The next entry of the fault schedule decides whether a Pillow call
    fails for a reason outside the file system's shape. *)
Definition pil_fault : M unit :=
  fun w =>
    match faults w with
    | [] => Normal tt w
    | None :: rest => Normal tt (World (fs w) rest (trace w))
    | Some msg :: rest => Raise (Exception "OSError" msg) (World (fs w) rest (trace w))
    end.

(** ** The [os] calls of the script (POSIX behaviour) *)

Module Os.

Fixpoint endswith_sep (s : string) : bool :=
  match s with
  | EmptyString => false
  | String c EmptyString => Ascii.eqb c "/"%char
  | String _ s' => endswith_sep s'
  end.

(** [os.path.join(a, b)] of [posixpath]. *)
Definition path_join (a b : string) : string :=
  if String.prefix "/" b then b
  else if String.eqb a "" || endswith_sep a then a +:+ b
  else a +:+ "/" +:+ b.

(** [os.path.exists(path)]: true for a file and for a directory. *)
Definition path_exists (path : string) : M bool :=
  fun w => Normal (bool_decide (is_Some (fs w !! path))) w.

(** Does the file system hold an entry below directory [d]? *)
Definition has_children (m : gmap string node) (d : string) : bool :=
  existsb (fun kv => String.prefix (d +:+ "/") (fst kv)) (map_to_list m).

Definition oserror (cls what src dst : string) : exn :=
  Exception cls (what +:+ ": '" +:+ src +:+ "' -> '" +:+ dst +:+ "'").

(** [os.rename(src, dst)]: a file replaces a file, a directory replaces
    an empty directory, every other clash raises.  A directory is one
    entry of the map: the entries below a renamed directory are not
    re-keyed (the script never looks below a path it renames). *)
Definition rename (src dst : string) : M unit :=
  fun w =>
    let move (n : node) :=
      Normal tt (World (<[dst := n]> (delete src (fs w))) (faults w)
                       (trace w ++ [EvRename src dst])) in
    match fs w !! src with
    | None =>
        Raise (oserror "FileNotFoundError" "[Errno 2] No such file or directory" src dst) w
    | Some n =>
        if String.eqb src dst then Normal tt w
        else
          match n, fs w !! dst with
          | _, None => move n
          | File _, Some (File _) => move n
          | File _, Some Dir =>
              Raise (oserror "IsADirectoryError" "[Errno 21] Is a directory" src dst) w
          | Dir, Some (File _) =>
              Raise (oserror "NotADirectoryError" "[Errno 20] Not a directory" src dst) w
          | Dir, Some Dir =>
              if has_children (fs w) dst
              then Raise (oserror "OSError" "[Errno 39] Directory not empty" src dst) w
              else move n
          end
    end.

End Os.

(** ** The Pillow calls of the script *)

Module PilIO.

(** [Image.open(path)]: the path is opened for reading, then the bytes
    are identified and decoded.  The file system keeps no parent links,
    so an absent path is always reported as [ENOENT] (never [ENOTDIR]),
    and the path is quoted as [repr] quotes a name without quote or
    escape characters. *)
Definition open (path : string) : M Pil.image :=
  emit (EvRead path);;
  fun w =>
    match fs w !! path with
    | None =>
        Raise (Exception "FileNotFoundError"
                 ("[Errno 2] No such file or directory: '" +:+ path +:+ "'")) w
    | Some Dir =>
        Raise (Exception "IsADirectoryError"
                 ("[Errno 21] Is a directory: '" +:+ path +:+ "'")) w
    | Some (File f) =>
        (pil_fault;;
         match f with
         | Blob _ =>
             raise (Exception "UnidentifiedImageError"
                      ("cannot identify image file '" +:+ path +:+ "'"))
         | Png img => ret img
         end) w
    end.

Definition convert_RGBA (img : Pil.image) : M Pil.image :=
  pil_fault;; ret (Pil.convert_RGBA img).

Definition new_RGB (sz : nat * nat) (color : Z * Z * Z) : M Pil.image :=
  pil_fault;; ret (Pil.new_RGB sz color).

Definition split (img : Pil.image) : M (list Pil.image) :=
  pil_fault;; ret (Pil.split img).

(** [t[-1]] on a tuple. *)
Definition item_last {A} (t : list A) : M A :=
  match last t with
  | Some x => ret x
  | None => raise (Exception "IndexError" "tuple index out of range")
  end.

(** [canvas.paste(src, mask=mask)] with no box: the region is the whole
    source placed at (0, 0); source, mask and region must agree in size.
    The script pastes an RGBA source on an RGB canvas through an L mask,
    the combination [paste_mask_L] serves without converting the source. *)
Definition paste (canvas src mask : Pil.image) : M Pil.image :=
  pil_fault;;
  match Pil.im canvas, Pil.im src, Pil.im mask with
  | Pil.RasterRGB out, Pil.RasterRGBA inp, Pil.RasterL a =>
      if bool_decide (Pil.size canvas = Pil.size src /\ Pil.size mask = Pil.size src)
      then ret (Pil.Image (Pil.size canvas) (Pil.RasterRGB (Pil.paste_mask_L out inp a)))
      else raise (Exception "ValueError" "images do not match")
  | _, _, _ => raise (Exception "ValueError" "images do not match")
  end.

(** The file system once [path] holds file [f]. *)
Definition put (path : string) (f : file) : M unit :=
  fun w => Normal tt (World (<[path := File f]> (fs w)) (faults w) (trace w)).

(** [img.save(path, 'PNG')]: the file is opened for writing, which
    creates it or truncates what was there, and the image is encoded
    into it.  A fault injected into the encoding (a full disk, say)
    leaves the file as it is by then, incomplete; it is held as the
    empty file.  (There being no parent links, the directory the file
    goes into is not looked at.) *)
Definition save (img : Pil.image) (path : string) : M unit :=
  fun w =>
    match fs w !! path with
    | Some Dir =>
        Raise (Exception "IsADirectoryError"
                 ("[Errno 21] Is a directory: '" +:+ path +:+ "'")) w
    | _ =>
        (emit (EvWrite path);;
         put path (Blob "");;
         pil_fault;;
         put path (Png img)) w
    end.

End PilIO.

(** ** The script *)

Definition fixed_line (image_path output_path : string) : string :=
  "✅ Fixed: " +:+ image_path +:+ " -> " +:+ output_path.

Definition error_line (image_path : string) (e : exn) : string :=
  "❌ Error processing " +:+ image_path +:+ ": " +:+ str e.

(** [remove_transparency(image_path, output_path)] on a console with
    encoding [c]: first the body of its [try], then the function with
    its [except Exception as e]. *)
Definition flatten_body_on (c : console) (image_path output_path : string) : M unit :=
  img <- PilIO.open image_path;
  img <- (if negb (Pil.mode_eqb (Pil.image_mode img) Pil.RGBA)
          then PilIO.convert_RGBA img else ret img);
  background <- PilIO.new_RGB (Pil.size img) (255, 255, 255);
  bands <- PilIO.split img;
  mask <- PilIO.item_last bands;
  background <- PilIO.paste background img mask;
  PilIO.save background output_path;;
  print_to c (fixed_line image_path output_path).

Definition remove_transparency_on (c : console) (image_path output_path : string) : M unit :=
  try_except (flatten_body_on c image_path output_path)
             (fun e => print_to c (error_line image_path e)).

(** The same on a UTF-8 console, as [main] below is run. *)
Definition flatten_body : string -> string -> M unit := flatten_body_on Utf8.

Definition remove_transparency : string -> string -> M unit := remove_transparency_on Utf8.

Definition app_icon_dir : string := "SaviPets/Assets.xcassets/AppIcon.appiconset".

Definition icon_files : list string :=
  ["SaviPets-iOS-Default-1024x1024@1x.png";
   "SaviPets-iOS-Dark-1024x1024@1x.png";
   "SaviPets-iOS-TintedLight-1024x1024@1x.png"].

Definition dir_not_found_line : string :=
  "❌ App icon directory not found: " +:+ app_icon_dir.

Definition not_found_line (icon_file : string) : string :=
  "⚠️  Icon file not found: " +:+ icon_file.

Definition newline : string := String (Ascii.ascii_of_nat 10) EmptyString.

Definition completion_lines : list string :=
  [newline +:+ "🎉 App icon transparency fix complete!";
   "📝 Next steps:";
   "1. Clean and rebuild your project";
   "2. Archive and upload to App Store Connect"].

Definition input_path_of (icon_file : string) : string :=
  Os.path_join app_icon_dir icon_file.

Definition backup_path_of (icon_file : string) : string :=
  input_path_of icon_file +:+ ".backup".

(** The body of [for icon_file in icon_files]. *)
Definition process_icon (icon_file : string) : M unit :=
  let input_path := Os.path_join app_icon_dir icon_file in
  found <- Os.path_exists input_path;
  if found : bool then
    let backup_path := input_path +:+ ".backup" in
    Os.rename input_path backup_path;;
    remove_transparency backup_path input_path
  else
    print (not_found_line icon_file).

Fixpoint for_each {A} (body : A -> M unit) (xs : list A) : M unit :=
  match xs with
  | [] => ret tt
  | x :: xs' => body x;; for_each body xs'
  end.

(** The four [print] calls that end [main]. *)
Definition print_lines (lines : list string) : M unit := for_each print lines.

Definition main : M unit :=
  found <- Os.path_exists app_icon_dir;
  if negb found then
    print dir_not_found_line
  else
    for_each process_icon icon_files;;
    print_lines completion_lines.

(** ** Definitions used to state the properties *)

(** The specification's compositing rule, in its own words: with
    [alpha] the alpha sample as a fraction of full opacity,
    [round(alpha * source + (1 - alpha) * 255)]. *)
Definition alpha_fraction (a : Z) : Q := a # 255.

Definition round_nearest (q : Q) : Z := Qfloor (q + (1 # 2)).

Definition spec_over_white (a s : Z) : Z :=
  round_nearest (alpha_fraction a * inject_Z s + (1 - alpha_fraction a) * inject_Z 255)%Q.

Definition white : Z * Z * Z := (255, 255, 255).

Definition alpha_band (px : list (Z * Z * Z * Z)) : list Z :=
  map (fun '(_, _, _, a) => a) px.

(** The image [remove_transparency] writes for a decoded input [img]:
    the calls of [flatten_body] with the file system and faults left out. *)
Definition flattened (img : Pil.image) : Pil.image :=
  let px := Pil.to_rgba (Pil.im img) in
  Pil.Image (Pil.size img)
    (Pil.RasterRGB (Pil.paste_mask_L (repeat white (Pil.npixels img)) px (alpha_band px))).

(** One pixel of the paste on a white canvas, and a well-formed RGBA pixel. *)
Definition over_white_px (p : Z * Z * Z * Z) : Z * Z * Z :=
  let '(r, g, b, a) := p in (Pil.BLEND8 a 255 r, Pil.BLEND8 a 255 g, Pil.BLEND8 a 255 b).

Definition rgba_ok (p : Z * Z * Z * Z) : Prop :=
  let '(r, g, b, a) := p in
  Pil.sample_ok r /\ Pil.sample_ok g /\ Pil.sample_ok b /\ Pil.sample_ok a.

(** The Pillow calls [remove_transparency] makes on a decoded image,
    each of which takes an entry of the fault schedule: [open],
    [convert] unless the mode is RGBA already, [new], [split], [paste]
    and [save]. *)
Definition pillow_calls (img : Pil.image) : nat :=
  if Pil.mode_eqb (Pil.image_mode img) Pil.RGBA then 5%nat else 6%nat.

(** No failure is injected into any later Pillow call. *)
Definition fault_free (w : world) : Prop := Forall (fun f => f = None) (faults w).

(** [m] returns normally from [w], with a result and world satisfying [Q]. *)
Definition returns {A} (m : M A) (w : world) (Q : A -> world -> Prop) : Prop :=
  match m w with
  | Normal a w' => Q a w'
  | Raise _ _ => False
  end.

(** What [m] establishes from [w], whether it returns or raises. *)
Definition post {A} (m : M A) (w : world)
    (QN : A -> world -> Prop) (QR : exn -> world -> Prop) : Prop :=
  match m w with
  | Normal a w' => QN a w'
  | Raise e w' => QR e w'
  end.

(** The ways the body of the [try] can end: it wrote the flattened
    image of the decoded input; or it raised, either before the output
    file was opened for writing, or while the image was saved, which
    leaves an incomplete file. *)
Definition flatten_wrote (image_path output_path : string) (w w' : world) : Prop :=
  exists img,
    fs w !! image_path = Some (File (Png img)) /\
    fs w' = <[output_path := File (Png (flattened img))]> (fs w) /\
    trace w' = trace w ++ [EvRead image_path; EvWrite output_path;
                           EvPrint (fixed_line image_path output_path)] /\
    (fault_free w -> fault_free w').

Definition flatten_failed (image_path output_path : string) (w w' : world) : Prop :=
  ((fs w' = fs w /\ trace w' = trace w ++ [EvRead image_path]) \/
   ((exists img, fs w !! image_path = Some (File (Png img))) /\
    fs w' = <[output_path := File (Blob "")]> (fs w) /\
    trace w' = trace w ++ [EvRead image_path; EvWrite output_path])) /\
  (fault_free w -> fault_free w').

(** The world right after [os.rename(input_path, backup_path)] moved
    node [n] for icon [icon_file]. *)
Definition after_rename (icon_file : string) (n : node) (w : world) : world :=
  World (<[backup_path_of icon_file := n]> (delete (input_path_of icon_file) (fs w)))
        (faults w)
        (trace w ++ [EvRename (input_path_of icon_file) (backup_path_of icon_file)]).

(** The world after one more printed line. *)
Definition printed (line : string) (w : world) : world :=
  World (fs w) (faults w) (trace w ++ [EvPrint line]).

(** The events an iteration for [icon_file] can add to the trace. *)
Inductive icon_event (icon_file : string) : event -> Prop :=
| IconRename :
    icon_event icon_file (EvRename (input_path_of icon_file) (backup_path_of icon_file))
| IconRead : icon_event icon_file (EvRead (backup_path_of icon_file))
| IconWrite : icon_event icon_file (EvWrite (input_path_of icon_file))
| IconFixed :
    icon_event icon_file
      (EvPrint (fixed_line (backup_path_of icon_file) (input_path_of icon_file)))
| IconError e : icon_event icon_file (EvPrint (error_line (backup_path_of icon_file) e))
| IconNotFound : icon_event icon_file (EvPrint (not_found_line icon_file)).

(** The run dealt with [icon_file]: it renamed its file away, or
    reported it missing. *)
Definition attempted (icon_file : string) (evs : list event) : Prop :=
  EvRename (input_path_of icon_file) (backup_path_of icon_file) ∈ evs \/
  EvPrint (not_found_line icon_file) ∈ evs.

(** What one iteration for [icon_file] may change between [w] and [w']:
    only its two paths, only by its own events; a fault-free schedule
    stays fault-free. *)
Definition icon_step (icon_file : string) (w w' : world) : Prop :=
  (forall p, p <> input_path_of icon_file -> p <> backup_path_of icon_file ->
             fs w' !! p = fs w !! p) /\
  (exists evs, trace w' = trace w ++ evs /\ Forall (icon_event icon_file) evs) /\
  (fault_free w -> fault_free w').

(** An event that says nothing about [icon_file] being missing and
    puts nothing at its backup path. *)
Definition foreign_to (icon_file : string) (ev : event) : Prop :=
  ev <> EvPrint (not_found_line icon_file) /\
  (forall src, ev <> EvRename src (backup_path_of icon_file)) /\
  ev <> EvWrite (backup_path_of icon_file).

(** [os.rename] cannot raise for [icon_file]: its file is missing, or
    is a regular file with no directory at the backup path. *)
Definition settled (icon_file : string) (w : world) : Prop :=
  fs w !! input_path_of icon_file = None \/
  ((exists f, fs w !! input_path_of icon_file = Some (File f)) /\
   fs w !! backup_path_of icon_file <> Some Dir).

(** The events of one iteration, in order. *)
Inductive iteration_events (icon_file : string) : list event -> Prop :=
| ItNotFound : iteration_events icon_file [EvPrint (not_found_line icon_file)]
| ItRenameRaised : iteration_events icon_file []
| ItFixed :
    iteration_events icon_file
      [EvRename (input_path_of icon_file) (backup_path_of icon_file);
       EvRead (backup_path_of icon_file);
       EvWrite (input_path_of icon_file);
       EvPrint (fixed_line (backup_path_of icon_file) (input_path_of icon_file))]
| ItFailed e :
    iteration_events icon_file
      [EvRename (input_path_of icon_file) (backup_path_of icon_file);
       EvRead (backup_path_of icon_file);
       EvPrint (error_line (backup_path_of icon_file) e)]
| ItSaveFailed e :
    iteration_events icon_file
      [EvRename (input_path_of icon_file) (backup_path_of icon_file);
       EvRead (backup_path_of icon_file);
       EvWrite (input_path_of icon_file);
       EvPrint (error_line (backup_path_of icon_file) e)].

(** Every write in [evs] comes right after the rename of the written
    path to its [.backup] name and the read of that backup. *)
Definition backed_up_before_write (evs : list event) : Prop :=
  forall i p,
    evs !! i = Some (EvWrite p) ->
    exists j,
      i = S (S j) /\
      evs !! j = Some (EvRename p (p +:+ ".backup")) /\
      evs !! S j = Some (EvRead (p +:+ ".backup")).

(** The lines printed by a stretch of events, in order. *)
Fixpoint printed_lines (evs : list event) : list string :=
  match evs with
  | [] => []
  | EvPrint line :: evs' => line :: printed_lines evs'
  | _ :: evs' => printed_lines evs'
  end.

(** A status line of [icon_file]: missing, fixed, or failed with some exception. *)
Definition status_line (icon_file line : string) : Prop :=
  line = not_found_line icon_file \/
  line = fixed_line (backup_path_of icon_file) (input_path_of icon_file) \/
  exists e, line = error_line (backup_path_of icon_file) e.

(** ** Sample images and worlds *)

Definition translucent_icon : Pil.image :=
  Pil.Image (2, 1)%nat (Pil.RasterRGBA [(10, 20, 30, 128); (200, 100, 0, 77)]).

Definition opaque_icon : Pil.image :=
  Pil.Image (2, 1)%nat (Pil.RasterRGBA [(10, 20, 30, 255); (200, 100, 0, 255)]).

Definition transparent_icon : Pil.image :=
  Pil.Image (2, 1)%nat (Pil.RasterRGBA [(0, 0, 0, 0); (200, 100, 0, 0)]).

(** One image file [in.png], nothing else, no injected fault. *)
Definition one_file_world (img : Pil.image) : world :=
  World {[ "in.png" := File (Png img) ]} [] [].

Definition default_icon : string := "SaviPets-iOS-Default-1024x1024@1x.png".
Definition dark_icon : string := "SaviPets-iOS-Dark-1024x1024@1x.png".
Definition tinted_icon : string := "SaviPets-iOS-TintedLight-1024x1024@1x.png".

(** The icon directory with the given entries in it. *)
Definition icon_dir_world (entries : list (string * node)) (fl : list (option string)) : world :=
  World (<[app_icon_dir := Dir]> (list_to_map entries)) fl [].

(** The default icon is a translucent image; an old backup is in the way. *)
Definition stale_backup_world : world :=
  icon_dir_world [(input_path_of default_icon, File (Png translucent_icon));
                  (backup_path_of default_icon, File (Blob "old backup"))] [].

(** The default icon holds bytes that are not an image. *)
Definition corrupt_icon_world : world :=
  icon_dir_world [(input_path_of default_icon, File (Blob "not a png"))] [].

(** The default icon exists, a directory sits at its backup path, the
    other two icons are missing. *)
Definition dir_at_backup_world : world :=
  icon_dir_world [(input_path_of default_icon, File (Png translucent_icon));
                  (backup_path_of default_icon, Dir)] [].

(** The icon directory holding only the default icon, a translucent image. *)
Definition fresh_icon_world : world :=
  icon_dir_world [(input_path_of default_icon, File (Png translucent_icon))] [].

(** The same, with the disk filling up when the flattened icon is saved
    (the fifth Pillow call for an RGBA image). *)
Definition full_disk_world : world :=
  icon_dir_world [(input_path_of default_icon, File (Png translucent_icon))]
                 [None; None; None; None; Some "[Errno 28] No space left on device"].

(** A grey image with an alpha band. *)
Definition grey_icon : Pil.image :=
  Pil.Image (2, 1)%nat (Pil.RasterLA [(40, 128); (200, 0)]).

(** The icon directory with nothing in it; a fault is scheduled, for
    any Pillow call that would be made. *)
Definition empty_icon_dir_world : world := icon_dir_world [] [Some "unused fault"].

(** * Properties *)

(** ** Pillow's blend is rounding to nearest *)

Section Blend.

Lemma DIV255_nearest x : 0 <= x <= 65025 -> Pil.DIV255 x = (2 * x + 255) / 510.
Proof.
  intros Hx. unfold Pil.DIV255. cbv zeta.
  rewrite !Z.shiftr_div_pow2 by lia.
  change (2 ^ 8) with 256.
  Z.div_mod_to_equations. lia.
Qed.

Lemma land_255_small v : 0 <= v <= 255 -> Z.land v 255 = v.
Proof.
  intros Hv. change 255 with (Z.ones 8). rewrite Z.land_ones by lia.
  apply Z.mod_small. change (2 ^ 8) with 256. lia.
Qed.

Lemma BLEND8_nearest a o s :
  Pil.sample_ok a -> Pil.sample_ok o -> Pil.sample_ok s ->
  Pil.BLEND8 a o s = (2 * (o * (255 - a) + s * a) + 255) / 510.
Proof.
  unfold Pil.sample_ok, Pil.BLEND8. intros Ha Ho Hs.
  assert (0 <= o * (255 - a) + s * a <= 65025) as Hx by nia.
  rewrite DIV255_nearest by exact Hx.
  apply land_255_small.
  Z.div_mod_to_equations. lia.
Qed.

Lemma spec_over_white_div a s :
  spec_over_white a s = (2 * (255 * (255 - a) + s * a) + 255) / 510.
Proof.
  unfold spec_over_white, round_nearest, alpha_fraction.
  transitivity (Qfloor ((2 * (255 * (255 - a) + s * a) + 255) # 510)).
  - apply Qfloor_comp. unfold Qeq, Qplus, Qmult, Qminus, Qopp, inject_Z; simpl. lia.
  - reflexivity.
Qed.

(** The blend on a white canvas is the specification's rounding. *)
Lemma BLEND8_white a s :
  Pil.sample_ok a -> Pil.sample_ok s -> Pil.BLEND8 a 255 s = spec_over_white a s.
Proof.
  intros Ha Hs. rewrite spec_over_white_div.
  apply BLEND8_nearest; [exact Ha | unfold Pil.sample_ok; lia | exact Hs].
Qed.

(** The rounding never meets a tie: the result is strictly within one
    half of the exact blend, so every rounding rule gives the same value. *)
Lemma spec_over_white_no_tie a s :
  Pil.sample_ok a -> Pil.sample_ok s ->
  2 * Z.abs (255 * spec_over_white a s - (a * s + (255 - a) * 255)) < 255.
Proof.
  unfold Pil.sample_ok. intros Ha Hs. rewrite spec_over_white_div.
  Z.div_mod_to_equations. lia.
Qed.

Lemma BLEND8_opaque o s : Pil.sample_ok o -> Pil.sample_ok s -> Pil.BLEND8 255 o s = s.
Proof.
  intros Ho Hs. rewrite BLEND8_nearest; [| unfold Pil.sample_ok in *; lia | done | done].
  unfold Pil.sample_ok in *. Z.div_mod_to_equations. lia.
Qed.

Lemma BLEND8_transparent o s : Pil.sample_ok o -> Pil.sample_ok s -> Pil.BLEND8 0 o s = o.
Proof.
  intros Ho Hs. rewrite BLEND8_nearest; [| unfold Pil.sample_ok in *; lia | done | done].
  unfold Pil.sample_ok in *. Z.div_mod_to_equations. lia.
Qed.

End Blend.

(** ** The flattened image, pixel by pixel *)

Section Flattened.

Lemma paste_on_white px :
  Pil.paste_mask_L (repeat white (length px)) px (alpha_band px) = map over_white_px px.
Proof.
  induction px as [|[[[r g] b] a] px IH]; simpl; [reflexivity |].
  f_equal. exact IH.
Qed.

Lemma length_to_rgba r : length (Pil.to_rgba r) = Pil.raster_length r.
Proof. destruct r; simpl; by rewrite ?length_map. Qed.

Lemma to_rgba_ok r : Pil.raster_ok r -> Forall rgba_ok (Pil.to_rgba r).
Proof.
  assert (Pil.sample_ok 255) as H255 by (unfold Pil.sample_ok; lia).
  destruct r as [px|px|px|px]; simpl; intros H.
  - induction H; simpl; constructor; simpl; auto.
  - induction H as [|[l a] ? [? ?]]; simpl; constructor; simpl; auto.
  - induction H as [|[[r g] b] ? (? & ? & ?)]; simpl; constructor; simpl; auto.
  - induction H as [|[[[r g] b] a] ? (? & ? & ? & ?)]; simpl; constructor; simpl; auto.
Qed.

Lemma flattened_raster img :
  Pil.image_ok img ->
  flattened img = Pil.Image (Pil.size img)
                    (Pil.RasterRGB (map over_white_px (Pil.to_rgba (Pil.im img)))).
Proof.
  intros [Hlen _]. unfold flattened.
  rewrite <- Hlen, <- length_to_rgba. by rewrite paste_on_white.
Qed.

Lemma flattened_lookup img i p :
  Pil.image_ok img ->
  Pil.to_rgba (Pil.im img) !! i = Some p ->
  rgba_ok p /\
  exists px, Pil.im (flattened img) = Pil.RasterRGB px /\
             length px = Pil.npixels img /\
             px !! i = Some (over_white_px p).
Proof.
  intros Hok Hi. split.
  - destruct Hok as [_ Hok]. apply to_rgba_ok in Hok.
    rewrite Forall_lookup in Hok. by apply (Hok i).
  - rewrite (flattened_raster img Hok). eexists; split; [reflexivity |].
    destruct Hok as [Hlen _]. split.
    + by rewrite length_map, length_to_rgba.
    + by rewrite list_lookup_fmap, Hi.
Qed.

End Flattened.

(** ** Rules for computations that return *)

Section Returns.

Lemma returns_elim {A} (m : M A) w Q :
  returns m w Q -> exists a w', m w = Normal a w' /\ Q a w'.
Proof. unfold returns. destruct (m w); [eauto | tauto]. Qed.

Lemma returns_bind {A B} (m : M A) (k : A -> M B) w Q :
  returns m w (fun a w' => returns (k a) w' Q) -> returns (bind m k) w Q.
Proof. unfold returns, bind. destruct (m w); [auto | tauto]. Qed.

Lemma returns_ret {A} (a : A) w (Q : A -> world -> Prop) : Q a w -> returns (ret a) w Q.
Proof. auto. Qed.

Lemma returns_try {A} (m : M A) h w Q : returns m w Q -> returns (try_except m h) w Q.
Proof. unfold returns, try_except. destruct (m w); [auto | tauto]. Qed.

Lemma returns_emit ev w (Q : unit -> world -> Prop) :
  Q tt (World (fs w) (faults w) (trace w ++ [ev])) -> returns (emit ev) w Q.
Proof. auto. Qed.

Lemma returns_put path f w (Q : unit -> world -> Prop) :
  Q tt (World (<[path := File f]> (fs w)) (faults w) (trace w)) -> returns (PilIO.put path f) w Q.
Proof. auto. Qed.

Lemma fault_free_World m fl tr : Forall (fun f => f = None) fl -> fault_free (World m fl tr).
Proof. auto. Qed.

Lemma returns_pil_fault w (Q : unit -> world -> Prop) :
  fault_free w ->
  (forall fl, Forall (fun f => f = None) fl -> Q tt (World (fs w) fl (trace w))) ->
  returns pil_fault w Q.
Proof.
  unfold fault_free, returns, pil_fault. intros Hff HQ.
  destruct w as [m fl tr]; simpl in *.
  destruct Hff as [|[msg|] rest Hhd Htl]; [by apply HQ | discriminate | by apply HQ].
Qed.

Lemma returns_pure_call {A} (x : A) w (Q : A -> world -> Prop) :
  fault_free w ->
  (forall fl, Forall (fun f => f = None) fl -> Q x (World (fs w) fl (trace w))) ->
  returns (pil_fault;; ret x) w Q.
Proof.
  intros Hff HQ. apply returns_bind, returns_pil_fault; [exact Hff |].
  intros fl Hfl. by apply returns_ret, HQ.
Qed.

End Returns.

(** ** The Pillow calls when nothing fails *)

Section PillowReturns.

Lemma returns_open path w img (Q : Pil.image -> world -> Prop) :
  fs w !! path = Some (File (Png img)) ->
  fault_free w ->
  (forall fl, Forall (fun f => f = None) fl ->
              Q img (World (fs w) fl (trace w ++ [EvRead path]))) ->
  returns (PilIO.open path) w Q.
Proof.
  intros Hin Hff HQ. unfold PilIO.open.
  apply returns_bind, returns_emit.
  unfold returns at 1; simpl. rewrite Hin.
  apply returns_bind, returns_pil_fault; [exact Hff |].
  intros fl Hfl. by apply returns_ret, HQ.
Qed.

Lemma returns_save img path w (Q : unit -> world -> Prop) :
  fs w !! path <> Some Dir ->
  fault_free w ->
  (forall fl, Forall (fun f => f = None) fl ->
              Q tt (World (<[path := File (Png img)]> (fs w)) fl (trace w ++ [EvWrite path]))) ->
  returns (PilIO.save img path) w Q.
Proof.
  intros Hout Hff HQ. unfold PilIO.save.
  assert (returns (emit (EvWrite path);; PilIO.put path (Blob "");;
                   pil_fault;; PilIO.put path (Png img)) w Q) as H.
  { apply returns_bind, returns_emit. apply returns_bind, returns_put.
    apply returns_bind, returns_pil_fault; [exact Hff |].
    intros fl Hfl. apply returns_put. simpl. rewrite insert_insert_eq. by apply HQ. }
  unfold returns at 1. destruct (fs w !! path) as [[f|]|]; [exact H | done | exact H].
Qed.

Lemma convert_RGBA_id img :
  Pil.mode_eqb (Pil.image_mode img) Pil.RGBA = true -> Pil.convert_RGBA img = img.
Proof. destruct img as [sz [px|px|px|px]]; simpl; (discriminate || reflexivity). Qed.

Lemma returns_convert_if_needed img w (Q : Pil.image -> world -> Prop) :
  fault_free w ->
  (forall fl, Forall (fun f => f = None) fl ->
              Q (Pil.convert_RGBA img) (World (fs w) fl (trace w))) ->
  returns (if negb (Pil.mode_eqb (Pil.image_mode img) Pil.RGBA)
           then PilIO.convert_RGBA img else ret img) w Q.
Proof.
  intros Hff HQ. destruct (Pil.mode_eqb _ _) eqn:Hmode; simpl.
  - apply returns_ret. rewrite <- (convert_RGBA_id img Hmode) at 1.
    destruct w; apply HQ, Hff.
  - by apply returns_pure_call.
Qed.

Lemma last_split_RGBA img :
  last (Pil.split (Pil.convert_RGBA img))
  = Some (Pil.Image (Pil.size img) (Pil.RasterL (alpha_band (Pil.to_rgba (Pil.im img))))).
Proof. reflexivity. Qed.

(** A decodable input, no injected fault and an output path that is not
    a directory: the body of the [try] runs to its last line. *)
Lemma flatten_body_ok image_path output_path w img :
  fs w !! image_path = Some (File (Png img)) ->
  fault_free w ->
  fs w !! output_path <> Some Dir ->
  returns (flatten_body image_path output_path) w (fun _ w' =>
    fs w' = <[output_path := File (Png (flattened img))]> (fs w) /\
    trace w' = trace w ++ [EvRead image_path; EvWrite output_path;
                           EvPrint (fixed_line image_path output_path)] /\
    fault_free w').
Proof.
  intros Hin Hff Hout. unfold flatten_body, flatten_body_on.
  apply returns_bind, (returns_open _ _ img); [exact Hin | exact Hff |].
  intros fl1 Hfl1.
  apply returns_bind with (m := if negb _ then _ else _).
  apply returns_convert_if_needed; [by apply fault_free_World |].
  simpl. intros fl2 Hfl2.
  apply returns_bind, returns_pure_call; [by apply fault_free_World |].
  simpl. intros fl3 Hfl3.
  apply returns_bind, returns_pure_call; [by apply fault_free_World |].
  simpl. intros fl4 Hfl4.
  unfold PilIO.item_last. rewrite last_split_RGBA.
  apply returns_bind, returns_ret.
  apply returns_bind. unfold PilIO.paste.
  apply returns_bind, returns_pil_fault; [by apply fault_free_World |].
  simpl. intros fl5 Hfl5.
  rewrite bool_decide_eq_true_2 by done.
  apply returns_ret.
  apply returns_bind, returns_save; [done | by apply fault_free_World |].
  simpl. intros fl6 Hfl6.
  apply returns_emit. simpl.
  split; [reflexivity |]. split; [| by apply fault_free_World].
  by rewrite <- !app_assoc.
Qed.

Lemma remove_transparency_ok image_path output_path w img :
  fs w !! image_path = Some (File (Png img)) ->
  fault_free w ->
  fs w !! output_path <> Some Dir ->
  exists w',
    remove_transparency image_path output_path w = Normal tt w' /\
    fs w' = <[output_path := File (Png (flattened img))]> (fs w) /\
    trace w' = trace w ++ [EvRead image_path; EvWrite output_path;
                           EvPrint (fixed_line image_path output_path)] /\
    fault_free w'.
Proof.
  intros Hin Hff Hout.
  pose proof (flatten_body_ok _ _ _ _ Hin Hff Hout) as H.
  apply (returns_try _ (fun e => print (error_line image_path e))) in H.
  apply returns_elim in H as ([] & w' & Hrun & HQ). eauto.
Qed.

End PillowReturns.

(** ** Flattening: C1, C2, C3 *)

(** C1.  For an input image with an alpha channel (RGBA, or grey with
    alpha), [remove_transparency] writes an image without alpha channel,
    of the same size, whose pixel at every position is
    [round(alpha * source + (1 - alpha) * 255)] in each of the three
    colour bands, [alpha] being the alpha sample of the input's pixel at
    that position over 255 and [source] its red, green or blue sample
    (its grey sample, for a grey image). *)
Theorem C1_flatten_over_white image_path output_path w img :
  fs w !! image_path = Some (File (Png img)) ->
  Pil.has_alpha img = true ->
  Pil.image_ok img ->
  fault_free w ->
  fs w !! output_path <> Some Dir ->
  exists w' out px,
    remove_transparency image_path output_path w = Normal tt w' /\
    fs w' !! output_path = Some (File (Png out)) /\
    Pil.has_alpha out = false /\
    Pil.size out = Pil.size img /\
    Pil.im out = Pil.RasterRGB px /\
    length px = Pil.npixels img /\
    match Pil.im img with
    | Pil.RasterRGBA src =>
        forall i r g b a,
          src !! i = Some (r, g, b, a) ->
          px !! i = Some (spec_over_white a r, spec_over_white a g, spec_over_white a b)
    | Pil.RasterLA src =>
        forall i l a,
          src !! i = Some (l, a) ->
          px !! i = Some (spec_over_white a l, spec_over_white a l, spec_over_white a l)
    | Pil.RasterL _ | Pil.RasterRGB _ => False
    end.
Proof.
  intros Hin Halpha Hok Hff Hout.
  destruct (remove_transparency_ok _ _ _ _ Hin Hff Hout) as (w' & Hrun & Hfs & _).
  exists w', (flattened img), (map over_white_px (Pil.to_rgba (Pil.im img))).
  split; [exact Hrun |].
  split; [by rewrite Hfs, lookup_insert_eq |].
  split; [reflexivity |]. split; [reflexivity |].
  split; [by rewrite (flattened_raster img Hok) |].
  split; [destruct Hok as [Hlen _]; by rewrite length_map, length_to_rgba |].
  destruct Hok as [_ Hok].
  destruct img as [sz [src|src|src|src]]; try discriminate Halpha; simpl in *.
  - intros i l a Hi.
    rewrite Forall_lookup in Hok. destruct (Hok i _ Hi) as [Hl Ha].
    rewrite !list_lookup_fmap, Hi. simpl. by rewrite !BLEND8_white.
  - intros i r g b a Hi.
    rewrite Forall_lookup in Hok. destruct (Hok i _ Hi) as (Hr & Hg & Hb & Ha).
    rewrite list_lookup_fmap, Hi. simpl. by rewrite !BLEND8_white.
Qed.

Lemma C1_flatten_over_white_witness :
  exists w' out px,
    remove_transparency "in.png" "out.png" (one_file_world translucent_icon) = Normal tt w' /\
    fs w' !! "out.png" = Some (File (Png out)) /\
    Pil.has_alpha out = false /\
    Pil.size out = Pil.size translucent_icon /\
    Pil.im out = Pil.RasterRGB px /\
    length px = Pil.npixels translucent_icon /\
    forall i r g b a,
      [(10, 20, 30, 128); (200, 100, 0, 77)] !! i = Some (r, g, b, a) ->
      px !! i = Some (spec_over_white a r, spec_over_white a g, spec_over_white a b).
Proof.
  apply (C1_flatten_over_white "in.png" "out.png" (one_file_world translucent_icon)).
  - reflexivity.
  - reflexivity.
  - split; [reflexivity |]. simpl. unfold Pil.sample_ok. repeat constructor; lia.
  - constructor.
  - vm_compute. discriminate.
Defined.

(** C2.  For an input image with an alpha channel, every pixel whose
    alpha sample is 255 is written with exactly its red, green and blue
    samples (its grey sample in each band, for a grey image); so when
    the alpha is 255 at every pixel, the written image holds exactly
    the source's colour samples. *)
Theorem C2_opaque_keeps_rgb image_path output_path w img :
  fs w !! image_path = Some (File (Png img)) ->
  Pil.has_alpha img = true ->
  Pil.image_ok img ->
  fault_free w ->
  fs w !! output_path <> Some Dir ->
  exists w' out px,
    remove_transparency image_path output_path w = Normal tt w' /\
    fs w' !! output_path = Some (File (Png out)) /\
    Pil.im out = Pil.RasterRGB px /\
    length px = Pil.npixels img /\
    match Pil.im img with
    | Pil.RasterRGBA src =>
        forall i r g b, src !! i = Some (r, g, b, 255) -> px !! i = Some (r, g, b)
    | Pil.RasterLA src =>
        forall i l, src !! i = Some (l, 255) -> px !! i = Some (l, l, l)
    | Pil.RasterL _ | Pil.RasterRGB _ => False
    end.
Proof.
  intros Hin Halpha Hok Hff Hout.
  destruct (remove_transparency_ok _ _ _ _ Hin Hff Hout) as (w' & Hrun & Hfs & _).
  exists w', (flattened img), (map over_white_px (Pil.to_rgba (Pil.im img))).
  split; [exact Hrun |].
  split; [by rewrite Hfs, lookup_insert_eq |].
  split; [by rewrite (flattened_raster img Hok) |].
  split; [destruct Hok as [Hlen _]; by rewrite length_map, length_to_rgba |].
  destruct Hok as [_ Hok].
  assert (Pil.sample_ok 255) as H255 by (unfold Pil.sample_ok; lia).
  destruct img as [sz [src|src|src|src]]; try discriminate Halpha; simpl in *.
  - intros i l Hi.
    rewrite Forall_lookup in Hok. destruct (Hok i _ Hi) as [Hl Ha].
    rewrite !list_lookup_fmap, Hi. simpl. by rewrite !BLEND8_opaque.
  - intros i r g b Hi.
    rewrite Forall_lookup in Hok. destruct (Hok i _ Hi) as (Hr & Hg & Hb & Ha).
    rewrite list_lookup_fmap, Hi. simpl. by rewrite !BLEND8_opaque.
Qed.

Lemma C2_opaque_keeps_rgb_witness :
  exists w' out px,
    remove_transparency "in.png" "out.png" (one_file_world opaque_icon) = Normal tt w' /\
    fs w' !! "out.png" = Some (File (Png out)) /\
    Pil.im out = Pil.RasterRGB px /\
    length px = Pil.npixels opaque_icon /\
    forall i r g b,
      [(10, 20, 30, 255); (200, 100, 0, 255)] !! i = Some (r, g, b, 255) ->
      px !! i = Some (r, g, b).
Proof.
  apply (C2_opaque_keeps_rgb "in.png" "out.png" (one_file_world opaque_icon)).
  - reflexivity.
  - reflexivity.
  - split; [reflexivity |]. simpl. unfold Pil.sample_ok. repeat constructor; lia.
  - constructor.
  - vm_compute. discriminate.
Defined.



(** ** The missing icon directory: C4 *)

(** C4.  When nothing exists at the icon directory's path, [main]
    returns at once: the file system is untouched, no rename, read or
    write happens, and the one new event is the diagnostic line. *)
Theorem C4_missing_root_only_prints w :
  fs w !! app_icon_dir = None ->
  main w = Normal tt (World (fs w) (faults w) (trace w ++ [EvPrint dir_not_found_line])).
Proof.
  intros Hroot. unfold main, bind, Os.path_exists.
  rewrite Hroot. rewrite bool_decide_eq_false_2 by (intros [? ?]; discriminate).
  reflexivity.
Qed.

Lemma C4_missing_root_only_prints_witness :
  main (one_file_world opaque_icon)
  = Normal tt (World (fs (one_file_world opaque_icon)) (faults (one_file_world opaque_icon))
                     (trace (one_file_world opaque_icon) ++ [EvPrint dir_not_found_line])).
Proof. apply (C4_missing_root_only_prints (one_file_world opaque_icon)). reflexivity. Defined.

(** ** Rules for computations that may raise *)

Section Post.

Lemma post_elim {A} (m : M A) w QN QR :
  post m w QN QR ->
  (exists a w', m w = Normal a w' /\ QN a w') \/ (exists e w', m w = Raise e w' /\ QR e w').
Proof. unfold post. destruct (m w); eauto. Qed.

Lemma post_bind {A B} (m : M A) (k : A -> M B) w QN QR :
  post m w (fun a w' => post (k a) w' QN QR) QR -> post (bind m k) w QN QR.
Proof. unfold post, bind. by destruct (m w). Qed.

Lemma post_ret {A} (a : A) w (QN : A -> world -> Prop) QR : QN a w -> post (ret a) w QN QR.
Proof. auto. Qed.

Lemma post_raise {A} e w (QN : A -> world -> Prop) (QR : exn -> world -> Prop) :
  QR e w -> post (raise e) w QN QR.
Proof. auto. Qed.

Lemma post_emit ev w (QN : unit -> world -> Prop) QR :
  QN tt (World (fs w) (faults w) (trace w ++ [ev])) -> post (emit ev) w QN QR.
Proof. auto. Qed.

Lemma post_put path f w (QN : unit -> world -> Prop) QR :
  QN tt (World (<[path := File f]> (fs w)) (faults w) (trace w)) -> post (PilIO.put path f) w QN QR.
Proof. auto. Qed.

Lemma post_pil_fault w (QN : unit -> world -> Prop) (QR : exn -> world -> Prop) :
  (forall fl, (fault_free w -> Forall (fun f => f = None) fl) ->
              QN tt (World (fs w) fl (trace w))) ->
  (forall e fl, (fault_free w -> Forall (fun f => f = None) fl) ->
                QR e (World (fs w) fl (trace w))) ->
  post pil_fault w QN QR.
Proof.
  unfold post, pil_fault, fault_free. destruct w as [m fl tr]; simpl.
  intros HN HR. destruct fl as [|[msg|] rest].
  - by apply HN.
  - apply HR. by inversion 1.
  - apply HN. by inversion 1.
Qed.

Lemma post_pure_call {A} (x : A) w (QN : A -> world -> Prop) QR :
  (forall fl, (fault_free w -> Forall (fun f => f = None) fl) ->
              QN x (World (fs w) fl (trace w))) ->
  (forall e fl, (fault_free w -> Forall (fun f => f = None) fl) ->
                QR e (World (fs w) fl (trace w))) ->
  post (pil_fault;; ret x) w QN QR.
Proof.
  intros HN HR. apply post_bind, post_pil_fault; [| exact HR].
  intros fl Hfl. by apply post_ret, HN.
Qed.

Lemma post_open path w (QN : Pil.image -> world -> Prop) QR :
  (forall img fl, fs w !! path = Some (File (Png img)) ->
                  (fault_free w -> Forall (fun f => f = None) fl) ->
                  QN img (World (fs w) fl (trace w ++ [EvRead path]))) ->
  (forall e fl, (fault_free w -> Forall (fun f => f = None) fl) ->
                QR e (World (fs w) fl (trace w ++ [EvRead path]))) ->
  post (PilIO.open path) w QN QR.
Proof.
  intros HN HR. unfold PilIO.open. apply post_bind, post_emit.
  unfold post at 1; simpl.
  destruct (fs w !! path) as [[[img|bytes]|]|] eqn:Hin; try by apply HR.
  - apply post_bind, post_pil_fault; [| exact HR].
    intros fl Hfl. by apply post_ret, HN.
  - apply post_bind, post_pil_fault; [| exact HR].
    intros fl Hfl. by apply post_raise, HR.
Qed.

Lemma post_convert_if_needed img w (QN : Pil.image -> world -> Prop) QR :
  (forall fl, (fault_free w -> Forall (fun f => f = None) fl) ->
              QN (Pil.convert_RGBA img) (World (fs w) fl (trace w))) ->
  (forall e fl, (fault_free w -> Forall (fun f => f = None) fl) ->
                QR e (World (fs w) fl (trace w))) ->
  post (if negb (Pil.mode_eqb (Pil.image_mode img) Pil.RGBA)
        then PilIO.convert_RGBA img else ret img) w QN QR.
Proof.
  intros HN HR. destruct (Pil.mode_eqb _ _) eqn:Hmode; simpl.
  - apply post_ret. rewrite <- (convert_RGBA_id img Hmode) at 1.
    destruct w; by apply HN.
  - by apply post_pure_call.
Qed.

(** [save] ends in one of three ways: the image is at the path; it
    raised with the file system as it was; it raised with an empty file
    left at the path. *)
Lemma post_save img path w (QN : unit -> world -> Prop) QR :
  (forall fl, (fault_free w -> Forall (fun f => f = None) fl) ->
              QN tt (World (<[path := File (Png img)]> (fs w)) fl
                           (trace w ++ [EvWrite path]))) ->
  (forall e fl, (fault_free w -> Forall (fun f => f = None) fl) ->
                QR e (World (fs w) fl (trace w))) ->
  (forall e fl, (fault_free w -> Forall (fun f => f = None) fl) ->
                QR e (World (<[path := File (Blob "")]> (fs w)) fl
                            (trace w ++ [EvWrite path]))) ->
  post (PilIO.save img path) w QN QR.
Proof.
  intros HN HR HP.
  assert (post (emit (EvWrite path);; PilIO.put path (Blob "");;
                pil_fault;; PilIO.put path (Png img)) w QN QR) as H.
  { apply post_bind, post_emit. apply post_bind, post_put.
    apply post_bind, post_pil_fault; [| exact HP].
    intros fl Hfl. apply post_put. simpl. rewrite insert_insert_eq. by apply HN. }
  unfold PilIO.save, post at 1.
  destruct (fs w !! path) as [[f|]|]; [exact H | | exact H].
  destruct w; by apply HR.
Qed.

End Post.

(** ** What [remove_transparency] does in every world *)

Section Flatten.

Ltac close_raise :=
  intros; unfold flatten_failed, fault_free in *; simpl in *;
  rewrite <- ?app_assoc;
  first [split;
           [first [left; split; reflexivity
                  | right; split; [eauto | split; reflexivity]]
           | auto 10]
        | auto 10].

Lemma flatten_body_post image_path output_path w :
  post (flatten_body image_path output_path) w
       (fun _ w' => flatten_wrote image_path output_path w w')
       (fun _ w' => flatten_failed image_path output_path w w').
Proof.
  unfold flatten_body, flatten_body_on.
  apply post_bind, post_open; [| close_raise]. intros img fl1 Hin Hfl1.
  apply post_bind with (m := if negb _ then _ else _).
  apply post_convert_if_needed; [| close_raise]. simpl. intros fl2 Hfl2.
  apply post_bind, post_pure_call; [| close_raise]. simpl. intros fl3 Hfl3.
  apply post_bind, post_pure_call; [| close_raise]. simpl. intros fl4 Hfl4.
  unfold PilIO.item_last. rewrite last_split_RGBA.
  apply post_bind, post_ret.
  apply post_bind. unfold PilIO.paste.
  apply post_bind, post_pil_fault; [| close_raise]. simpl. intros fl5 Hfl5.
  rewrite bool_decide_eq_true_2 by done.
  apply post_ret.
  apply post_bind, post_save; [| close_raise | close_raise]. simpl. intros fl6 Hfl6.
  apply post_emit. simpl.
  exists img. split; [exact Hin |]. split; [reflexivity |].
  split; [by rewrite <- !app_assoc |]. close_raise.
Qed.

(** On a UTF-8 console the handler's [print] returns. *)
Lemma remove_transparency_eq image_path output_path w :
  remove_transparency image_path output_path w
  = match flatten_body image_path output_path w with
    | Normal a w' => Normal a w'
    | Raise e w' => Normal tt (printed (error_line image_path e) w')
    end.
Proof. reflexivity. Qed.

(** Whatever the body does, [remove_transparency] returns: after a
    write with the success line printed, or after a failure with the
    error line for the exception the body raised. *)
Lemma remove_transparency_post image_path output_path w :
  exists w',
    remove_transparency image_path output_path w = Normal tt w' /\
    ((flatten_body image_path output_path w = Normal tt w' /\
      flatten_wrote image_path output_path w w') \/
     (exists e w1,
        flatten_body image_path output_path w = Raise e w1 /\
        flatten_failed image_path output_path w w1 /\
        w' = World (fs w1) (faults w1) (trace w1 ++ [EvPrint (error_line image_path e)]))).
Proof.
  pose proof (flatten_body_post image_path output_path w) as H.
  apply post_elim in H as [([] & w' & Hrun & H) | (e & w1 & Hrun & H)].
  - exists w'. rewrite remove_transparency_eq, Hrun. auto.
  - eexists. rewrite remove_transparency_eq, Hrun.
    split; [reflexivity |]. right. eauto.
Qed.

End Flatten.

(** ** One iteration of the loop *)

Section Iteration.

Lemma append_ne_self (s t : string) : t <> EmptyString -> s <> s +:+ t.
Proof.
  intros Ht. induction s as [|c s IH]; simpl.
  - by destruct t.
  - intros H. injection H as H. by apply IH.
Qed.

Lemma input_ne_backup icon_file : input_path_of icon_file <> backup_path_of icon_file.
Proof. by apply append_ne_self. Qed.

Lemma rename_cases src dst w n :
  src <> dst ->
  fs w !! src = Some n ->
  Os.rename src dst w
    = Normal tt (World (<[dst := n]> (delete src (fs w))) (faults w)
                       (trace w ++ [EvRename src dst]))
  \/ (exists e, Os.rename src dst w = Raise e w /\ (n = Dir \/ fs w !! dst = Some Dir)).
Proof.
  intros Hne Hsrc. unfold Os.rename. rewrite Hsrc.
  destruct (String.eqb_spec src dst) as [|_]; [done |].
  destruct n as [f|], (fs w !! dst) as [[g|]|]; eauto.
  destruct (Os.has_children (fs w) dst); eauto.
Qed.

Lemma rename_file src dst w f :
  src <> dst ->
  fs w !! src = Some (File f) ->
  fs w !! dst <> Some Dir ->
  Os.rename src dst w
    = Normal tt (World (<[dst := File f]> (delete src (fs w))) (faults w)
                       (trace w ++ [EvRename src dst])).
Proof.
  intros Hne Hsrc Hdst.
  destruct (rename_cases src dst w _ Hne Hsrc) as [H | (e & _ & [H | H])]; done.
Qed.

Lemma process_icon_missing icon_file w :
  fs w !! input_path_of icon_file = None ->
  process_icon icon_file w = Normal tt (printed (not_found_line icon_file) w).
Proof.
  intros Hin. unfold process_icon, bind, Os.path_exists.
  fold (input_path_of icon_file). rewrite Hin.
  rewrite bool_decide_eq_false_2 by (intros [? ?]; discriminate).
  reflexivity.
Qed.

Lemma process_icon_present icon_file w n :
  fs w !! input_path_of icon_file = Some n ->
  process_icon icon_file w
  = (Os.rename (input_path_of icon_file) (backup_path_of icon_file);;
     remove_transparency (backup_path_of icon_file) (input_path_of icon_file)) w.
Proof.
  intros Hin. unfold process_icon, bind at 1, Os.path_exists.
  fold (input_path_of icon_file). rewrite Hin.
  by rewrite bool_decide_eq_true_2 by eauto.
Qed.

(** The three ways an iteration can go. *)
Lemma process_icon_cases icon_file w :
  (fs w !! input_path_of icon_file = None /\
   process_icon icon_file w = Normal tt (printed (not_found_line icon_file) w))
  \/ (exists n e,
        fs w !! input_path_of icon_file = Some n /\
        (n = Dir \/ fs w !! backup_path_of icon_file = Some Dir) /\
        process_icon icon_file w = Raise e w)
  \/ (exists n,
        fs w !! input_path_of icon_file = Some n /\
        process_icon icon_file w
        = remove_transparency (backup_path_of icon_file) (input_path_of icon_file)
            (after_rename icon_file n w)).
Proof.
  destruct (fs w !! input_path_of icon_file) as [n|] eqn:Hin.
  - right. rewrite (process_icon_present _ _ _ Hin).
    destruct (rename_cases _ _ w n (input_ne_backup icon_file) Hin)
      as [Hmv | (e & Hmv & Hwhy)]; unfold bind; rewrite Hmv.
    + right. by exists n.
    + left. by exists n, e.
  - left. split; [done |]. by apply process_icon_missing.
Qed.

End Iteration.

(** ** Backup, then flatten: C7 *)

(** C7.  For an icon whose file exists, the iteration is the rename of
    the file to its [.backup] path followed by the call of
    [remove_transparency] with the backup path as input and the
    original path as output.  The rename replaces whatever file is at
    the backup path: when no directory sits there it returns with the
    icon's file at the backup path and nothing at the original one, and
    the flatten step is run in that world, so that the first two events
    are the rename and the read of the backup. *)
Theorem C7_backup_then_flatten icon_file rest w f :
  fs w !! input_path_of icon_file = Some (File f) ->
  process_icon icon_file w
  = (Os.rename (input_path_of icon_file) (backup_path_of icon_file);;
     remove_transparency (backup_path_of icon_file) (input_path_of icon_file)) w /\
  for_each process_icon (icon_file :: rest) w
  = (Os.rename (input_path_of icon_file) (backup_path_of icon_file);;
     remove_transparency (backup_path_of icon_file) (input_path_of icon_file);;
     for_each process_icon rest) w /\
  (fs w !! backup_path_of icon_file <> Some Dir ->
   let w1 := after_rename icon_file (File f) w in
   Os.rename (input_path_of icon_file) (backup_path_of icon_file) w = Normal tt w1 /\
   fs w1 !! backup_path_of icon_file = Some (File f) /\
   fs w1 !! input_path_of icon_file = None /\
   process_icon icon_file w
   = remove_transparency (backup_path_of icon_file) (input_path_of icon_file) w1 /\
   exists evs,
     trace (world_of (process_icon icon_file w))
     = trace w ++ EvRename (input_path_of icon_file) (backup_path_of icon_file)
               :: EvRead (backup_path_of icon_file) :: evs).
Proof.
  intros Hin.
  pose proof (input_ne_backup icon_file) as Hne.
  pose proof (process_icon_present _ _ _ Hin) as Hcall.
  split; [exact Hcall |].
  split.
  { simpl. unfold bind at 1. rewrite Hcall. unfold bind.
    by destruct (Os.rename (input_path_of icon_file) (backup_path_of icon_file) w). }
  intros Hbak w1.
  pose proof (rename_file _ _ w f Hne Hin Hbak) as Hmv.
  fold (after_rename icon_file (File f) w) in Hmv. fold w1 in Hmv.
  assert (process_icon icon_file w
          = remove_transparency (backup_path_of icon_file) (input_path_of icon_file) w1) as Hrun.
  { rewrite Hcall. unfold bind. by rewrite Hmv. }
  split; [exact Hmv |].
  split; [apply lookup_insert_eq |].
  split; [simpl; rewrite lookup_insert_ne by done; apply lookup_delete_eq |].
  split; [exact Hrun |].
  rewrite Hrun.
  destruct (remove_transparency_post (backup_path_of icon_file) (input_path_of icon_file) w1)
    as (w' & -> & [[_ (img & _ & _ & Htr & _)]
                  | (e & w2 & _ & ([[_ Htr] | (_ & _ & Htr)] & _) & ->)]); simpl.
  - rewrite Htr. simpl. rewrite <- app_assoc. simpl. eauto.
  - rewrite Htr. simpl. rewrite <- !app_assoc. simpl. eauto.
  - rewrite Htr. simpl. rewrite <- !app_assoc. simpl. eauto.
Qed.

Lemma C7_backup_then_flatten_witness :
  let w1 := after_rename default_icon (File (Png translucent_icon)) stale_backup_world in
  process_icon default_icon stale_backup_world
  = (Os.rename (input_path_of default_icon) (backup_path_of default_icon);;
     remove_transparency (backup_path_of default_icon) (input_path_of default_icon))
      stale_backup_world /\
  Os.rename (input_path_of default_icon) (backup_path_of default_icon) stale_backup_world
  = Normal tt w1 /\
  fs stale_backup_world !! backup_path_of default_icon = Some (File (Blob "old backup")) /\
  fs w1 !! backup_path_of default_icon = Some (File (Png translucent_icon)) /\
  fs w1 !! input_path_of default_icon = None /\
  process_icon default_icon stale_backup_world
  = remove_transparency (backup_path_of default_icon) (input_path_of default_icon) w1.
Proof.
  destruct (C7_backup_then_flatten default_icon [dark_icon; tinted_icon] stale_backup_world
              (Png translucent_icon)) as (Hcall & _ & Hrest).
  - vm_compute. reflexivity.
  - destruct Hrest as (Hmv & Hbak & Hin & Hrun & _).
    + vm_compute. discriminate.
    + intros w1. split; [exact Hcall |]. split; [exact Hmv |].
      split; [vm_compute; reflexivity |]. split; [exact Hbak |].
      split; [exact Hin | exact Hrun].
Defined.

(** ** A failure inside the flatten step: C6 *)




(** ** What can leave [remove_transparency]: C10 *)

Section Armed.

(** The schedule lets [k] Pillow calls pass and fails the next with [msg]. *)
Lemma post_pil_fault_armed k msg rest w (QN : unit -> world -> Prop) (QR : exn -> world -> Prop) :
  faults w = replicate k None ++ Some msg :: rest ->
  (k = 0%nat -> QR (Exception "OSError" msg) (World (fs w) rest (trace w))) ->
  (forall k', k = S k' ->
     QN tt (World (fs w) (replicate k' None ++ Some msg :: rest) (trace w))) ->
  post pil_fault w QN QR.
Proof.
  intros Hfl H0 HS. unfold post, pil_fault. rewrite Hfl.
  destruct k as [|k']; simpl; [by apply H0 | by apply HS].
Qed.

Ltac pass_or_hit :=
  apply post_bind; eapply post_pil_fault_armed;
  [simpl; reflexivity | intros ->; simpl; tauto | intros ? ->; simpl].

(** A fault scheduled for any of the Pillow calls made on a decodable
    image is raised by the body of the [try]. *)
Lemma flatten_body_fault c image_path output_path w img k msg rest :
  fs w !! image_path = Some (File (Png img)) ->
  fs w !! output_path <> Some Dir ->
  faults w = replicate k None ++ Some msg :: rest ->
  (k < pillow_calls img)%nat ->
  post (flatten_body_on c image_path output_path) w
       (fun _ _ => False)
       (fun e w' => e = Exception "OSError" msg /\ faults w' = rest).
Proof.
  intros Hin Hout Hfl Hk.
  destruct w as [m fl tr]. simpl in *. subst fl.
  assert (forall j tr',
    (j < 4)%nat ->
    post (background <- PilIO.new_RGB (Pil.size (Pil.convert_RGBA img)) (255, 255, 255);
          bands <- PilIO.split (Pil.convert_RGBA img);
          mask <- PilIO.item_last bands;
          background <- PilIO.paste background (Pil.convert_RGBA img) mask;
          PilIO.save background output_path;;
          print_to c (fixed_line image_path output_path))
         (World m (replicate j None ++ Some msg :: rest) tr')
         (fun _ _ => False)
         (fun e w' => e = Exception "OSError" msg /\ faults w' = rest)) as Htail.
  { intros j tr' Hj.
    apply post_bind. unfold PilIO.new_RGB. pass_or_hit. apply post_ret.
    apply post_bind. unfold PilIO.split. pass_or_hit. apply post_ret.
    unfold PilIO.item_last. rewrite last_split_RGBA. apply post_bind, post_ret.
    apply post_bind. unfold PilIO.paste. pass_or_hit.
    rewrite bool_decide_eq_true_2 by done. apply post_ret.
    apply post_bind. unfold PilIO.save, post at 1. simpl.
    destruct (m !! output_path) as [[f|]|]; [| done |].
    all: apply post_bind, post_emit; apply post_bind, post_put.
    all: pass_or_hit; lia. }
  unfold flatten_body_on, PilIO.open.
  apply post_bind. apply post_bind, post_emit. unfold post at 1. simpl. rewrite Hin.
  pass_or_hit. apply post_ret.
  unfold pillow_calls in Hk.
  destruct (Pil.mode_eqb (Pil.image_mode img) Pil.RGBA) eqn:Hmode; simpl.
  - apply post_bind, post_ret.
    rewrite <- (convert_RGBA_id img Hmode). apply Htail. lia.
  - apply post_bind. unfold PilIO.convert_RGBA. pass_or_hit. apply post_ret.
    apply Htail. lia.
Qed.

End Armed.




(** ** The three names and their paths *)

Section Names.

Lemma icon_files_NoDup : NoDup icon_files.
Proof. compute_done. Qed.

Lemma icon_paths_disjoint n m :
  n ∈ icon_files -> m ∈ icon_files -> n <> m ->
  input_path_of n <> input_path_of m /\ input_path_of n <> backup_path_of m /\
  backup_path_of n <> input_path_of m /\ backup_path_of n <> backup_path_of m.
Proof.
  unfold icon_files. intros Hn Hm Hne.
  repeat (apply elem_of_cons in Hn as [-> | Hn]); [| | | by apply not_elem_of_nil in Hn];
    repeat (apply elem_of_cons in Hm as [-> | Hm]);
    try (by apply not_elem_of_nil in Hm); try done;
    repeat split; apply String.eqb_neq; vm_compute; reflexivity.
Qed.

Lemma icon_dir_not_icon_path n :
  n ∈ icon_files -> app_icon_dir <> input_path_of n /\ app_icon_dir <> backup_path_of n.
Proof.
  unfold icon_files. intros Hn.
  repeat (apply elem_of_cons in Hn as [-> | Hn]); [| | | by apply not_elem_of_nil in Hn];
    split; apply String.eqb_neq; vm_compute; reflexivity.
Qed.

Lemma append_inj_r (p a b : string) : p +:+ a = p +:+ b -> a = b.
Proof. induction p as [|c p IH]; simpl; [done |]. intros [= H]. auto. Qed.

Lemma not_found_line_inj a b : not_found_line a = not_found_line b -> a = b.
Proof. apply append_inj_r. Qed.

(** The events of another icon's iteration are foreign to [name]. *)
Lemma icon_event_foreign name n ev :
  name ∈ icon_files -> n ∈ icon_files -> n <> name ->
  icon_event n ev -> foreign_to name ev.
Proof.
  intros Hname Hn Hne Hev.
  destruct (icon_paths_disjoint n name Hn Hname Hne) as (_ & _ & Hbi & Hbb).
  destruct (icon_paths_disjoint name n Hname Hn (not_eq_sym Hne)) as (_ & _ & Hbi' & _).
  destruct Hev; (split; [| split; [intros src |]]); try discriminate.
  - intros [= _ H]. by apply Hbb.
  - intros [= H]. by apply Hbi'.
  - intros [= H]. by apply Hne, not_found_line_inj.
Qed.

Lemma completion_line_foreign name line :
  line ∈ completion_lines -> foreign_to name (EvPrint line).
Proof.
  unfold completion_lines. intros H.
  split; [| split; [intros src |]]; try discriminate.
  repeat (apply elem_of_cons in H as [-> | H]); [| | | | by apply not_elem_of_nil in H];
    intros [= H]; revert H; unfold not_found_line, newline; simpl; discriminate.
Qed.

Lemma foreign_not_in name evs :
  Forall (foreign_to name) evs ->
  (EvPrint (not_found_line name) ∉ evs) /\
  (forall src, EvRename src (backup_path_of name) ∉ evs) /\
  (EvWrite (backup_path_of name) ∉ evs).
Proof.
  rewrite Forall_forall. intros H.
  split; [| split; [intros src |]]; intros Hin; apply H in Hin as (H1 & H2 & H3).
  - by apply H1.
  - by apply (H2 src).
  - by apply H3.
Qed.

Lemma for_each_app {A} (body : A -> M unit) xs ys w :
  for_each body (xs ++ ys) w = (for_each body xs;; for_each body ys) w.
Proof.
  revert w. induction xs as [|x xs IH]; intros w; simpl; [done |].
  unfold bind. destruct (body x w) as [[] w1 | e w1]; [| done].
  rewrite IH. reflexivity.
Qed.

End Names.

(** ** Frames and events of an iteration and of the loop *)

Section Loop.

Lemma world_of_bind {A B} (m : M A) (k : A -> M B) w :
  world_of (bind m k w)
  = match m w with
    | Normal a w' => world_of (k a w')
    | Raise _ w' => w'
    end.
Proof. unfold bind. by destruct (m w). Qed.

Lemma process_icon_step icon_file w :
  icon_step icon_file w (world_of (process_icon icon_file w)).
Proof.
  destruct (process_icon_cases icon_file w)
    as [[_ ->] | [(n & e & _ & _ & ->) | (n & _ & ->)]]; simpl.
  - split; [done |]. split; [| done].
    exists [EvPrint (not_found_line icon_file)]. split; [done |]. repeat constructor.
  - split; [done |]. split; [| done]. exists []. by rewrite app_nil_r.
  - destruct (remove_transparency_post (backup_path_of icon_file) (input_path_of icon_file)
                (after_rename icon_file n w))
      as (w' & -> & [[_ (img & _ & Hfs & Htr & Hff)]
                    | (e & w1 & _ & ([[Hfs Htr] | (_ & Hfs & Htr)] & Hff) & ->)]); simpl.
    + split; [| split; [| exact Hff]].
      * intros p Hp1 Hp2. rewrite Hfs. simpl.
        by rewrite lookup_insert_ne, lookup_insert_ne, lookup_delete_ne.
      * eexists. rewrite Htr. simpl. rewrite <- app_assoc. split; [reflexivity |].
        repeat constructor.
    + split; [| split; [| exact Hff]].
      * intros p Hp1 Hp2. rewrite Hfs. simpl.
        by rewrite lookup_insert_ne, lookup_delete_ne.
      * eexists. rewrite Htr. simpl. rewrite <- !app_assoc. split; [reflexivity |].
        repeat constructor.
    + split; [| split; [| exact Hff]].
      * intros p Hp1 Hp2. rewrite Hfs. simpl.
        by rewrite lookup_insert_ne, lookup_insert_ne, lookup_delete_ne.
      * eexists. rewrite Htr. simpl. rewrite <- !app_assoc. split; [reflexivity |].
        repeat constructor.
Qed.

(** An iteration that returns has dealt with its icon. *)
Lemma process_icon_attempted icon_file w w' :
  process_icon icon_file w = Normal tt w' ->
  exists evs, trace w' = trace w ++ evs /\ attempted icon_file evs.
Proof.
  destruct (process_icon_cases icon_file w)
    as [[_ ->] | [(n & e & _ & _ & ->) | (n & _ & ->)]]; [| done |].
  - intros [= <-]. eexists. split; [reflexivity |]. right. apply list_elem_of_here.
  - destruct (remove_transparency_post (backup_path_of icon_file) (input_path_of icon_file)
                (after_rename icon_file n w))
      as (w2 & -> & [[_ (img & _ & _ & Htr & _)]
                    | (e & w1 & _ & ([[_ Htr] | (_ & _ & Htr)] & _) & ->)]);
      intros [= <-]; simpl; rewrite Htr; simpl; rewrite <- ?app_assoc;
      (eexists; split; [reflexivity |]); left; apply list_elem_of_here.
Qed.

Lemma print_lines_run lines w :
  print_lines lines w = Normal tt (World (fs w) (faults w) (trace w ++ map EvPrint lines)).
Proof.
  unfold print_lines. revert w. induction lines as [|line lines IH]; intros w; simpl.
  - rewrite app_nil_r. by destruct w.
  - unfold bind.
    change (print line w)
      with (Normal tt (World (fs w) (faults w) (trace w ++ [EvPrint line]))).
    cbv beta iota. rewrite IH. simpl. by rewrite <- app_assoc.
Qed.

(** The loop changes only the paths of the icons it runs over, by
    their own events. *)
Lemma loop_step names w :
  let w' := world_of (for_each process_icon names w) in
  (forall p, (forall n, n ∈ names -> p <> input_path_of n /\ p <> backup_path_of n) ->
             fs w' !! p = fs w !! p) /\
  (exists evs, trace w' = trace w ++ evs /\
               Forall (fun ev => exists n, n ∈ names /\ icon_event n ev) evs) /\
  (fault_free w -> fault_free w').
Proof.
  revert w. induction names as [|name names IH]; intros w; simpl.
  - split; [done |]. split; [| done]. exists []. by rewrite app_nil_r.
  - rewrite world_of_bind.
    destruct (process_icon_step name w) as (Hfs & (evs & Htr & Hevs) & Hff).
    assert (Forall (fun ev => exists n, n ∈ name :: names /\ icon_event n ev) evs) as Hevs'.
    { eapply Forall_impl; [exact Hevs |]. intros ev Hev. exists name.
      split; [apply list_elem_of_here | exact Hev]. }
    destruct (process_icon name w) as [[] w1 | e w1]; simpl in *.
    + destruct (IH w1) as (Hfs' & (evs' & Htr' & Hevs'') & Hff').
      split; [| split; [| by auto]].
      * intros p Hp. rewrite Hfs', Hfs; [done | | |].
        -- apply Hp, list_elem_of_here.
        -- apply Hp, list_elem_of_here.
        -- intros n Hn. by apply Hp, list_elem_of_further.
      * exists (evs ++ evs'). rewrite Htr', Htr, app_assoc. split; [done |].
        apply Forall_app. split; [exact Hevs' |].
        eapply Forall_impl; [exact Hevs'' |]. intros ev (n & Hn & Hev).
        exists n. split; [by apply list_elem_of_further | exact Hev].
    + split; [| split; [| exact Hff]].
      * intros p Hp. apply Hfs; apply Hp, list_elem_of_here.
      * by exists evs.
Qed.

(** A loop that returns has dealt with every name. *)
Lemma loop_attempted names w w' :
  for_each process_icon names w = Normal tt w' ->
  exists evs, trace w' = trace w ++ evs /\ forall n, n ∈ names -> attempted n evs.
Proof.
  revert w. induction names as [|name names IH]; intros w; simpl.
  - intros [= <-]. exists []. rewrite app_nil_r. split; [done |].
    intros n Hn. by apply not_elem_of_nil in Hn.
  - unfold bind. destruct (process_icon name w) as [[] w1 | e w1] eqn:Hiter; [| done].
    intros Hloop.
    destruct (process_icon_attempted name w w1 Hiter) as (evs1 & Htr1 & Hatt).
    destruct (IH w1 Hloop) as (evs & Htr & Hall).
    exists (evs1 ++ evs). split; [by rewrite Htr, Htr1, app_assoc |].
    intros n [-> | Hn]%elem_of_cons.
    + destruct Hatt as [H | H]; [left | right]; apply elem_of_app; by left.
    + destruct (Hall n Hn) as [H | H]; [left | right]; apply elem_of_app; by right.
Qed.

End Loop.

(** ** Icons for which [os.rename] cannot raise *)

Section Settled.

(** An iteration that returns leaves its icon settled, and from a
    settled icon an iteration returns. *)
Lemma process_icon_settles n w w' : process_icon n w = Normal tt w' -> settled n w'.
Proof.
  pose proof (input_ne_backup n) as Hne.
  destruct (process_icon_cases n w)
    as [[Hnone ->] | [(n0 & e & _ & _ & ->) | (n0 & _ & ->)]]; [| done |].
  - intros [= <-]. by left.
  - destruct (remove_transparency_post (backup_path_of n) (input_path_of n)
                (after_rename n n0 w))
      as (w2 & -> & [[_ (img & Himg & Hfs & _)]
                    | (e & w1 & _ & ([[Hfs _] | ((img & Himg) & Hfs & _)] & _) & ->)]);
      intros [= <-].
    + right. rewrite Hfs. split.
      * eexists. apply lookup_insert_eq.
      * rewrite lookup_insert_ne by done. by rewrite Himg.
    + left. simpl. rewrite Hfs. simpl.
      rewrite lookup_insert_ne by done. apply lookup_delete_eq.
    + right. simpl. rewrite Hfs. split.
      * eexists. apply lookup_insert_eq.
      * rewrite lookup_insert_ne by done. by rewrite Himg.
Qed.

Lemma settled_returns n w : settled n w -> exists w', process_icon n w = Normal tt w'.
Proof.
  intros Hs.
  destruct (process_icon_cases n w)
    as [[_ ->] | [(n0 & e & Hn0 & Hwhy & _) | (n0 & _ & ->)]]; [by eauto | |].
  - destruct Hs as [Hs | [[f Hf] Hbak]]; [congruence |].
    destruct Hwhy as [-> | Hd]; [congruence | done].
  - destruct (remove_transparency_post (backup_path_of n) (input_path_of n)
                (after_rename n n0 w)) as (w2 & -> & _). eauto.
Qed.

Lemma settled_frame n w w' :
  fs w' !! input_path_of n = fs w !! input_path_of n ->
  fs w' !! backup_path_of n = fs w !! backup_path_of n ->
  settled n w -> settled n w'.
Proof. unfold settled. by intros -> ->. Qed.

(** The paths of one listed name are none of the paths of the others. *)
Lemma others_disjoint name (names : list string) :
  name ∈ icon_files ->
  (forall n, n ∈ names -> n ∈ icon_files /\ n <> name) ->
  forall p, p = input_path_of name \/ p = backup_path_of name ->
  forall n, n ∈ names -> p <> input_path_of n /\ p <> backup_path_of n.
Proof.
  intros Hname Hnames p Hp n Hn. destruct (Hnames n Hn) as [Hn1 Hn2].
  destruct (icon_paths_disjoint name n Hname Hn1 (not_eq_sym Hn2)) as (? & ? & ? & ?).
  by destruct Hp as [-> | ->].
Qed.

Lemma loop_settles names w w' :
  NoDup names ->
  (forall n, n ∈ names -> n ∈ icon_files) ->
  for_each process_icon names w = Normal tt w' ->
  forall n, n ∈ names -> settled n w'.
Proof.
  revert w. induction names as [|x names IH]; intros w Hnd Hsub Hrun n Hn.
  { by apply not_elem_of_nil in Hn. }
  apply NoDup_cons in Hnd as [Hx Hnd].
  simpl in Hrun. unfold bind in Hrun.
  destruct (process_icon x w) as [[] w1 | e w1] eqn:Hiter; [| done].
  apply elem_of_cons in Hn as [-> | Hn].
  - destruct (loop_step names w1) as (Hfs & _). rewrite Hrun in Hfs. simpl in Hfs.
    assert (forall p, p = input_path_of x \/ p = backup_path_of x ->
                      fs w' !! p = fs w1 !! p) as Hsame.
    { intros p Hp. apply Hfs, (others_disjoint x); [apply Hsub, list_elem_of_here | | exact Hp].
      intros m Hm. split; [by apply Hsub, list_elem_of_further | by intros ->]. }
    apply (settled_frame x w1); [apply Hsame; by left | apply Hsame; by right |].
    by apply (process_icon_settles x w).
  - apply (IH w1); [exact Hnd | | exact Hrun | exact Hn].
    intros m Hm. by apply Hsub, list_elem_of_further.
Qed.

Lemma settled_loop_returns names w :
  NoDup names ->
  (forall n, n ∈ names -> n ∈ icon_files) ->
  (forall n, n ∈ names -> settled n w) ->
  exists w', for_each process_icon names w = Normal tt w'.
Proof.
  revert w. induction names as [|x names IH]; intros w Hnd Hsub Hset; simpl.
  { by exists w. }
  apply NoDup_cons in Hnd as [Hx Hnd].
  destruct (settled_returns x w (Hset x (list_elem_of_here _ _))) as (w1 & Hiter).
  unfold bind. rewrite Hiter.
  apply IH; [exact Hnd | intros m Hm; by apply Hsub, list_elem_of_further |].
  intros n Hn.
  destruct (process_icon_step x w) as (Hfs & _). rewrite Hiter in Hfs. simpl in Hfs.
  assert (forall p, p = input_path_of n \/ p = backup_path_of n ->
                    fs w1 !! p = fs w !! p) as Hsame.
  { intros p Hp.
    destruct (others_disjoint n [x]) with (p := p) (n := x) as [Hp1 Hp2];
      [by apply Hsub, list_elem_of_further | | exact Hp | apply list_elem_of_here |].
    - intros m ->%list_elem_of_singleton.
      split; [apply Hsub, list_elem_of_here | by intros ->].
    - by apply Hfs. }
  apply (settled_frame n w); [apply Hsame; by left | apply Hsame; by right |].
  by apply Hset, list_elem_of_further.
Qed.

End Settled.

(** ** The whole run: C9 *)

(** C9, as the script has it.  An exception of [os.rename] is caught
    nowhere, so the run is certain to reach its end only when no rename
    can raise.  When the icon directory exists and every listed icon is
    either missing or a regular file with no directory at its backup
    path, the run deals with all three names whatever happens inside
    the flatten steps (undecodable files, injected faults), prints the
    completion lines last, and returns the same [tt] as a run that
    found the directory missing. *)
Theorem C9_run_completes w :
  is_Some (fs w !! app_icon_dir) ->
  (forall icon_file, icon_file ∈ icon_files -> settled icon_file w) ->
  exists w' evs,
    main w = Normal tt w' /\
    trace w' = trace w ++ evs ++ map EvPrint completion_lines /\
    forall icon_file, icon_file ∈ icon_files -> attempted icon_file evs.
Proof.
  intros Hroot Hset.
  destruct (settled_loop_returns icon_files w icon_files_NoDup) as (w1 & Hloop);
    [done | exact Hset |].
  destruct (loop_attempted icon_files w w1 Hloop) as (evs & Htr & Hall).
  exists (World (fs w1) (faults w1) (trace w1 ++ map EvPrint completion_lines)), evs.
  split; [| split; [simpl; by rewrite Htr, app_assoc | exact Hall]].
  unfold main, bind at 1, Os.path_exists.
  rewrite bool_decide_eq_true_2 by exact Hroot.
  change (negb true) with false. cbv iota.
  unfold bind. rewrite Hloop. apply print_lines_run.
Qed.

Lemma C9_run_completes_witness :
  exists w' evs,
    main corrupt_icon_world = Normal tt w' /\
    trace w' = trace corrupt_icon_world ++ evs ++ map EvPrint completion_lines /\
    forall icon_file, icon_file ∈ icon_files -> attempted icon_file evs.
Proof.
  apply (C9_run_completes corrupt_icon_world).
  - vm_compute. eauto.
  - intros icon_file Hin.
    repeat (apply elem_of_cons in Hin as [-> | Hin]);
      [| | | by apply not_elem_of_nil in Hin].
    + right. split; [eexists; vm_compute; reflexivity | vm_compute; discriminate].
    + left. vm_compute. reflexivity.
    + left. vm_compute. reflexivity.
Defined.

(** C9 as written fails: the directory exists, yet the run is
    ended by the [IsADirectoryError] of the first rename; nothing is
    printed, and the second and third names are never looked at. *)
Lemma C9_rename_error_aborts_run :
  is_Some (fs dir_at_backup_world !! app_icon_dir) /\
  (exists e, main dir_at_backup_world = Raise e dir_at_backup_world) /\
  trace (world_of (main dir_at_backup_world)) = [] /\
  ~ attempted dark_icon (trace (world_of (main dir_at_backup_world))).
Proof.
  split; [vm_compute; eauto |].
  split; [eexists; vm_compute; reflexivity |].
  assert (trace (world_of (main dir_at_backup_world)) = []) as Htr by (vm_compute; reflexivity).
  split; [exact Htr |]. rewrite Htr.
  intros [H | H]; by apply not_elem_of_nil in H.
Qed.

(** ** A missing icon file: C5 *)

Section MissingIcon.

(** The rest of a run after some iteration: the loop over the names
    left, then the completion lines. *)
Lemma rest_of_run_step names w :
  let w' := world_of ((for_each process_icon names;; print_lines completion_lines) w) in
  (forall p, (forall n, n ∈ names -> p <> input_path_of n /\ p <> backup_path_of n) ->
             fs w' !! p = fs w !! p) /\
  exists evs,
    trace w' = trace w ++ evs /\
    Forall (fun ev => (exists n, n ∈ names /\ icon_event n ev) \/
                      (exists line, line ∈ completion_lines /\ ev = EvPrint line)) evs.
Proof.
  cbv zeta. rewrite world_of_bind.
  destruct (loop_step names w) as (Hfs & (evs & Htr & Hevs) & _).
  destruct (for_each process_icon names w) as [[] w1 | e w1];
    rewrite ?print_lines_run; simpl in *.
  - split; [exact Hfs |].
    exists (evs ++ map EvPrint completion_lines).
    split; [by rewrite Htr, app_assoc |].
    apply Forall_app. split.
    + eapply Forall_impl; [exact Hevs |]. intros ev Hev. by left.
    + apply Forall_fmap, Forall_forall. intros line Hline. right. by exists line.
  - split; [exact Hfs |]. exists evs. split; [exact Htr |].
    eapply Forall_impl; [exact Hevs |]. intros ev Hev. by left.
Qed.

End MissingIcon.

(** C5, as the script has it.  The notice for a missing icon is
    printed when the loop gets to its name, which it does unless
    [os.rename] raised for an earlier name.  When the icon directory
    exists, the file of a listed name is absent and the iterations for
    the names before it returned, the run prints the notice for that
    name exactly once, renames nothing to its backup path and writes
    nothing there, and goes on with the names after it. *)
Theorem C5_missing_icon_reported_once w pre name post w1 :
  icon_files = pre ++ name :: post ->
  is_Some (fs w !! app_icon_dir) ->
  fs w !! input_path_of name = None ->
  for_each process_icon pre w = Normal tt w1 ->
  main w = (for_each process_icon post;; print_lines completion_lines)
             (printed (not_found_line name) w1) /\
  (exists evs_pre evs_post,
     trace (world_of (main w))
     = trace w ++ evs_pre ++ EvPrint (not_found_line name) :: evs_post /\
     (EvPrint (not_found_line name) ∉ evs_pre ++ evs_post) /\
     (forall src, EvRename src (backup_path_of name) ∉ evs_pre ++ evs_post) /\
     (EvWrite (backup_path_of name) ∉ evs_pre ++ evs_post)) /\
  fs (world_of (main w)) !! backup_path_of name = fs w !! backup_path_of name.
Proof.
  intros Hsplit Hroot Hmissing Hpre.
  pose proof icon_files_NoDup as Hnd. rewrite Hsplit in Hnd.
  apply NoDup_app in Hnd as (_ & Hpre_ne & [Hpost_ne _]%NoDup_cons).
  assert (name ∈ icon_files) as Hname.
  { rewrite Hsplit. apply elem_of_app. right. apply list_elem_of_here. }
  assert (forall n, n ∈ pre -> n ∈ icon_files /\ n <> name) as Hin_pre.
  { intros n Hn. split; [rewrite Hsplit; apply elem_of_app; by left |].
    intros ->. apply (Hpre_ne name Hn), list_elem_of_here. }
  assert (forall n, n ∈ post -> n ∈ icon_files /\ n <> name) as Hin_post.
  { intros n Hn. split.
    - rewrite Hsplit. apply elem_of_app. right. by apply list_elem_of_further.
    - by intros ->. }
  assert (forall names : list string,
            (forall n, n ∈ names -> n ∈ icon_files /\ n <> name) ->
            forall p, p = input_path_of name \/ p = backup_path_of name ->
            forall n, n ∈ names -> p <> input_path_of n /\ p <> backup_path_of n) as Hdisj.
  { intros names Hnames p Hp n Hn. destruct (Hnames n Hn) as [Hn1 Hn2].
    destruct (icon_paths_disjoint name n Hname Hn1 (not_eq_sym Hn2)) as (? & ? & ? & ?).
    by destruct Hp as [-> | ->]. }
  (* the loop up to [name] *)
  destruct (loop_step pre w) as (Hfs_pre & (evs_pre & Htr_pre & Hevs_pre) & _).
  rewrite Hpre in Hfs_pre, Htr_pre. simpl in Hfs_pre, Htr_pre.
  assert (fs w1 !! input_path_of name = None) as Hmissing1.
  { rewrite Hfs_pre; [exact Hmissing |]. apply Hdisj; [exact Hin_pre | by left]. }
  (* the run from [name] on *)
  set (w2 := printed (not_found_line name) w1).
  assert (main w = (for_each process_icon post;; print_lines completion_lines) w2) as Hmain.
  { unfold main, bind at 1, Os.path_exists.
    rewrite bool_decide_eq_true_2 by exact Hroot.
    change (negb true) with false. cbv iota.
    unfold bind at 1. rewrite Hsplit, for_each_app. unfold bind at 1. rewrite Hpre.
    simpl. unfold bind at 1. rewrite (process_icon_missing name w1 Hmissing1).
    reflexivity. }
  destruct (rest_of_run_step post w2) as (Hfs_post & evs_post & Htr_post & Hevs_post).
  simpl in Hfs_post, Htr_post. rewrite <- Hmain in Hfs_post, Htr_post.
  split; [exact Hmain |]. split.
  - exists evs_pre, evs_post.
    split; [rewrite Htr_post; simpl; by rewrite Htr_pre, <- !app_assoc |].
    apply foreign_not_in, Forall_app. split.
    + eapply Forall_impl; [exact Hevs_pre |]. intros ev (n & Hn & Hev).
      destruct (Hin_pre n Hn). by apply (icon_event_foreign name n).
    + eapply Forall_impl; [exact Hevs_post |].
      intros ev [(n & Hn & Hev) | (line & Hline & ->)].
      * destruct (Hin_post n Hn). by apply (icon_event_foreign name n).
      * by apply completion_line_foreign.
  - rewrite Hfs_post; [| apply Hdisj; [exact Hin_post | by right]].
    simpl. apply Hfs_pre, Hdisj; [exact Hin_pre | by right].
Qed.

Lemma C5_missing_icon_reported_once_witness :
  exists w1,
    for_each process_icon [default_icon] corrupt_icon_world = Normal tt w1 /\
    (main corrupt_icon_world
     = (for_each process_icon [tinted_icon];; print_lines completion_lines)
         (printed (not_found_line dark_icon) w1) /\
     (exists evs_pre evs_post,
        trace (world_of (main corrupt_icon_world))
        = trace corrupt_icon_world ++ evs_pre ++ EvPrint (not_found_line dark_icon) :: evs_post /\
        (EvPrint (not_found_line dark_icon) ∉ evs_pre ++ evs_post) /\
        (forall src, EvRename src (backup_path_of dark_icon) ∉ evs_pre ++ evs_post) /\
        (EvWrite (backup_path_of dark_icon) ∉ evs_pre ++ evs_post)) /\
     fs (world_of (main corrupt_icon_world)) !! backup_path_of dark_icon
     = fs corrupt_icon_world !! backup_path_of dark_icon).
Proof.
  eexists. split; [vm_compute; reflexivity |].
  apply (C5_missing_icon_reported_once corrupt_icon_world [default_icon] dark_icon [tinted_icon]).
  - reflexivity.
  - vm_compute. eauto.
  - vm_compute. reflexivity.
  - vm_compute. reflexivity.
Defined.

(** C5 as written fails: the directory exists and the dark icon
    is missing, yet its notice is never printed, because the rename of
    the default icon onto a directory ended the run before. *)
Lemma C5_no_notice_after_rename_error :
  is_Some (fs dir_at_backup_world !! app_icon_dir) /\
  dark_icon ∈ icon_files /\
  fs dir_at_backup_world !! input_path_of dark_icon = None /\
  (EvPrint (not_found_line dark_icon) ∉ trace (world_of (main dir_at_backup_world))).
Proof.
  split; [vm_compute; eauto |].
  split; [unfold icon_files, dark_icon; set_solver |].
  split; [vm_compute; reflexivity |].
  assert (trace (world_of (main dir_at_backup_world)) = []) as -> by (vm_compute; reflexivity).
  apply not_elem_of_nil.
Qed.

(** ** Running twice: C8 *)

Section TwoRuns.

Lemma main_with_root w :
  is_Some (fs w !! app_icon_dir) ->
  main w = (for_each process_icon icon_files;; print_lines completion_lines) w.
Proof.
  intros Hroot. unfold main, bind at 1, Os.path_exists.
  by rewrite bool_decide_eq_true_2 by exact Hroot.
Qed.

(** What an iteration that finds an image does to the icon's two
    paths: nothing if the rename raises, else the image is at the
    backup path, and its flattening, nothing or an incomplete file at
    the icon's path. *)
Lemma process_icon_image name wa img :
  fs wa !! input_path_of name = Some (File (Png img)) ->
  let wb := world_of (process_icon name wa) in
  (wb = wa /\ fs wa !! backup_path_of name = Some Dir) \/
  (fs wa !! backup_path_of name <> Some Dir /\
   fs wb !! backup_path_of name = Some (File (Png img)) /\
   (fs wb !! input_path_of name = Some (File (Png (flattened img))) \/
    fs wb !! input_path_of name = None \/
    fs wb !! input_path_of name = Some (File (Blob "")))).
Proof.
  intros Hin wb. subst wb.
  pose proof (input_ne_backup name) as Hne.
  rewrite (process_icon_present _ _ _ Hin). unfold bind.
  assert (fs wa !! backup_path_of name = Some Dir \/
          fs wa !! backup_path_of name <> Some Dir) as [Hbak | Hbak].
  { destruct (fs wa !! backup_path_of name) as [[g|]|]; [right | left | right]; done. }
  - left. split; [| exact Hbak].
    unfold Os.rename. rewrite Hin, Hbak.
    by destruct (String.eqb_spec (input_path_of name) (backup_path_of name)).
  - right. split; [exact Hbak |].
    rewrite (rename_file _ _ wa (Png img) Hne Hin Hbak).
    fold (after_rename name (File (Png img)) wa).
    destruct (remove_transparency_post (backup_path_of name) (input_path_of name)
                (after_rename name (File (Png img)) wa))
      as (w' & -> & [[_ (img' & Himg' & Hfs & _)]
                    | (e & w1 & _ & ([[Hfs _] | (_ & Hfs & _)] & _) & ->)]);
      simpl; rewrite Hfs; simpl.
    + simpl in Himg'. rewrite lookup_insert_eq in Himg'. injection Himg' as <-.
      split; [rewrite lookup_insert_ne by done; apply lookup_insert_eq |].
      left. apply lookup_insert_eq.
    + split; [apply lookup_insert_eq |].
      right. left. rewrite lookup_insert_ne by done. apply lookup_delete_eq.
    + split; [rewrite lookup_insert_ne by done; apply lookup_insert_eq |].
      right. right. apply lookup_insert_eq.
Qed.

(** A run whose loop gets to [name]: the state at that point agrees
    with the start on the paths of [name], and the end of the run
    agrees on them with the end of the iteration. *)
Lemma run_through w pre name post wa :
  is_Some (fs w !! app_icon_dir) ->
  icon_files = pre ++ name :: post ->
  for_each process_icon pre w = Normal tt wa ->
  let wb := world_of (process_icon name wa) in
  fs wa !! input_path_of name = fs w !! input_path_of name /\
  fs wa !! backup_path_of name = fs w !! backup_path_of name /\
  fs (world_of (main w)) !! input_path_of name = fs wb !! input_path_of name /\
  fs (world_of (main w)) !! backup_path_of name = fs wb !! backup_path_of name.
Proof.
  intros Hroot Hsplit Hpre wb.
  pose proof icon_files_NoDup as Hnd. rewrite Hsplit in Hnd.
  apply NoDup_app in Hnd as (_ & Hpre_ne & [Hpost_ne _]%NoDup_cons).
  assert (name ∈ icon_files) as Hname.
  { rewrite Hsplit. apply elem_of_app. right. apply list_elem_of_here. }
  assert (forall n, n ∈ pre -> n ∈ icon_files /\ n <> name) as Hin_pre.
  { intros n Hn. split; [rewrite Hsplit; apply elem_of_app; by left |].
    intros ->. apply (Hpre_ne name Hn), list_elem_of_here. }
  assert (forall n, n ∈ post -> n ∈ icon_files /\ n <> name) as Hin_post.
  { intros n Hn. split.
    - rewrite Hsplit. apply elem_of_app. right. by apply list_elem_of_further.
    - by intros ->. }
  destruct (loop_step pre w) as (Hfs_pre & _). rewrite Hpre in Hfs_pre. simpl in Hfs_pre.
  split; [apply Hfs_pre, (others_disjoint name); [done | done | by left] |].
  split; [apply Hfs_pre, (others_disjoint name); [done | done | by right] |].
  assert (world_of (main w)
          = match process_icon name wa with
            | Normal _ w1 =>
                world_of ((for_each process_icon post;; print_lines completion_lines) w1)
            | Raise _ w1 => w1
            end) as Hend.
  { rewrite (main_with_root w Hroot), Hsplit. unfold bind at 1.
    rewrite for_each_app. unfold bind at 1. rewrite Hpre. simpl.
    unfold bind at 1. unfold bind at 1.
    destruct (process_icon name wa) as [[] w1 | e w1]; [| done].
    unfold bind. by destruct (for_each process_icon post w1). }
  rewrite Hend. subst wb.
  destruct (process_icon name wa) as [[] w1 | e w1]; simpl; [| done].
  destruct (rest_of_run_step post w1) as (Hfs_post & _).
  split; apply Hfs_post, (others_disjoint name); try done; [by left | by right].
Qed.

(** A run whose loop stops before [name] leaves its two paths as they were. *)
Lemma run_stopped_before w pre name post e wx :
  is_Some (fs w !! app_icon_dir) ->
  icon_files = pre ++ name :: post ->
  for_each process_icon pre w = Raise e wx ->
  fs (world_of (main w)) !! input_path_of name = fs w !! input_path_of name.
Proof.
  intros Hroot Hsplit Hpre.
  pose proof icon_files_NoDup as Hnd. rewrite Hsplit in Hnd.
  apply NoDup_app in Hnd as (_ & Hpre_ne & _).
  assert (name ∈ icon_files) as Hname.
  { rewrite Hsplit. apply elem_of_app. right. apply list_elem_of_here. }
  assert (forall n, n ∈ pre -> n ∈ icon_files /\ n <> name) as Hin_pre.
  { intros n Hn. split; [rewrite Hsplit; apply elem_of_app; by left |].
    intros ->. apply (Hpre_ne name Hn), list_elem_of_here. }
  assert (world_of (main w) = wx) as ->.
  { rewrite (main_with_root w Hroot), Hsplit. unfold bind at 1.
    rewrite for_each_app. unfold bind at 1. by rewrite Hpre. }
  destruct (loop_step pre w) as (Hfs_pre & _). rewrite Hpre in Hfs_pre. simpl in Hfs_pre.
  apply Hfs_pre, (others_disjoint name); [done | done | by left].
Qed.

(** After the loop got through [pre], the run is the rest of the run. *)
Lemma run_from w pre rest wa :
  is_Some (fs w !! app_icon_dir) ->
  icon_files = pre ++ rest ->
  for_each process_icon pre w = Normal tt wa ->
  main w = (for_each process_icon rest;; print_lines completion_lines) wa.
Proof.
  intros Hroot Hsplit Hpre.
  rewrite (main_with_root w Hroot), Hsplit. unfold bind at 1.
  rewrite for_each_app. unfold bind at 1. by rewrite Hpre.
Qed.

Lemma root_stays w : 
  is_Some (fs w !! app_icon_dir) -> is_Some (fs (world_of (main w)) !! app_icon_dir).
Proof.
  intros Hroot. rewrite (main_with_root w Hroot).
  destruct (rest_of_run_step icon_files w) as (Hfs & _).
  rewrite Hfs; [exact Hroot |]. intros n Hn. by apply icon_dir_not_icon_path.
Qed.

End TwoRuns.

(** C8.  Take a listed icon that is a decodable image with an alpha
    channel and that the first run flattened: after that run its path
    holds the flattened image.  After the first run the backup holds the
    original.  After the second run, however either run ended, the
    backup holds the flattened image of the first run, which has no
    alpha channel: the first backup is not reproduced, and neither of
    the icon's two paths holds the original any more. *)
Theorem C8_second_run_overwrites_backup w0 name img :
  is_Some (fs w0 !! app_icon_dir) ->
  name ∈ icon_files ->
  fs w0 !! input_path_of name = Some (File (Png img)) ->
  Pil.has_alpha img = true ->
  let w1 := world_of (main w0) in
  let w2 := world_of (main w1) in
  fs w1 !! input_path_of name = Some (File (Png (flattened img))) ->
  fs w1 !! backup_path_of name = Some (File (Png img)) /\
  fs w2 !! backup_path_of name = Some (File (Png (flattened img))) /\
  Pil.has_alpha (flattened img) = false /\
  fs w2 !! backup_path_of name <> fs w1 !! backup_path_of name /\
  fs w2 !! backup_path_of name <> Some (File (Png img)) /\
  fs w2 !! input_path_of name <> Some (File (Png img)).
Proof.
  intros Hroot Hname Hin Halpha w1 w2 Hdone.
  assert (forall x : Pil.image, flattened x <> img) as Hflat_ne.
  { intros x Hx. rewrite <- Hx in Halpha. discriminate. }
  destruct (list_elem_of_split _ _ Hname) as (pre & post & Hsplit).
  pose proof icon_files_NoDup as Hnd. rewrite Hsplit in Hnd.
  apply NoDup_app in Hnd as (Hnd_pre & Hpre_ne & _).
  assert (forall n, n ∈ pre -> n ∈ icon_files) as Hsub_pre.
  { intros n Hn. rewrite Hsplit. apply elem_of_app. by left. }
  (* the first run *)
  destruct (for_each process_icon pre w0) as [[] wa | e wx] eqn:Hpre.
  2:{ exfalso. subst w1.
      rewrite (run_stopped_before w0 pre name post e wx Hroot Hsplit Hpre), Hin in Hdone.
      injection Hdone as H. by apply (Hflat_ne img). }
  destruct (run_through w0 pre name post wa Hroot Hsplit Hpre)
    as (Hin_a & Hbak_a & Hin_1 & Hbak_1).
  fold w1 in Hin_1, Hbak_1. rewrite Hin in Hin_a.
  destruct (process_icon_image name wa img Hin_a) as [[Hsame _] | (_ & Hbak_b & _)].
  { exfalso. rewrite Hsame, Hin_a in Hin_1. rewrite Hin_1 in Hdone.
    injection Hdone as H. by apply (Hflat_ne img). }
  rewrite <- Hbak_1 in Hbak_b.
  (* the icons before [name] are settled after the first run *)
  assert (forall n, n ∈ pre -> settled n w1) as Hsettled.
  { intros n Hn.
    apply (settled_frame n wa); [| | by apply (loop_settles pre w0 wa)].
    all: subst w1; rewrite (run_from w0 pre (name :: post) wa Hroot Hsplit Hpre).
    all: destruct (rest_of_run_step (name :: post) wa) as (Hfs & _); apply Hfs.
    all: apply (others_disjoint n); [by apply Hsub_pre | | by auto].
    all: intros m Hm; split; [rewrite Hsplit; apply elem_of_app; by right |].
    all: intros ->; by apply (Hpre_ne n Hn). }
  (* the second run *)
  pose proof (root_stays w0 Hroot) as Hroot1. fold w1 in Hroot1.
  destruct (settled_loop_returns pre w1 Hnd_pre Hsub_pre Hsettled) as (wc & Hpre2).
  destruct (run_through w1 pre name post wc Hroot1 Hsplit Hpre2)
    as (Hin_c & Hbak_c & Hin_2 & Hbak_2).
  fold w2 in Hin_2, Hbak_2. rewrite Hdone in Hin_c. rewrite Hbak_b in Hbak_c.
  destruct (process_icon_image name wc (flattened img) Hin_c)
    as [[_ Hdir] | (_ & Hbak_d & Hin_d)]; [congruence |].
  rewrite <- Hbak_2 in Hbak_d. rewrite <- Hin_2 in Hin_d.
  split; [exact Hbak_b |]. split; [exact Hbak_d |]. split; [reflexivity |].
  rewrite Hbak_d, Hbak_b.
  split; [intros [= H]; by apply (Hflat_ne img) |].
  split; [intros [= H]; by apply (Hflat_ne img) |].
  destruct Hin_d as [-> | [-> | ->]]; [| done | done].
  intros [= H]. by apply (Hflat_ne (flattened img)).
Qed.

Lemma C8_second_run_overwrites_backup_witness :
  let w1 := world_of (main fresh_icon_world) in
  let w2 := world_of (main w1) in
  fs w1 !! backup_path_of default_icon = Some (File (Png translucent_icon)) /\
  fs w2 !! backup_path_of default_icon = Some (File (Png (flattened translucent_icon))) /\
  Pil.has_alpha (flattened translucent_icon) = false /\
  fs w2 !! backup_path_of default_icon <> fs w1 !! backup_path_of default_icon /\
  fs w2 !! backup_path_of default_icon <> Some (File (Png translucent_icon)) /\
  fs w2 !! input_path_of default_icon <> Some (File (Png translucent_icon)).
Proof.
  apply (C8_second_run_overwrites_backup fresh_icon_world default_icon translucent_icon).
  - vm_compute. eauto.
  - unfold icon_files, default_icon. set_solver.
  - vm_compute. reflexivity.
  - reflexivity.
  - vm_compute. reflexivity.
Defined.

(** * Further properties of the script *)

(** ** The flattened image is well formed and a fixed point *)

Section FlattenedImage.

Lemma BLEND8_white_bounds a s :
  Pil.sample_ok a -> Pil.sample_ok s -> s <= Pil.BLEND8 a 255 s <= 255.
Proof.
  intros Ha Hs. rewrite BLEND8_nearest; [| done | unfold Pil.sample_ok; lia | done].
  unfold Pil.sample_ok in *.
  assert (255 * s <= 255 * (255 - a) + s * a <= 65025) by nia.
  Z.div_mod_to_equations. lia.
Qed.

Lemma over_white_px_bounds p :
  rgba_ok p ->
  let '(r, g, b, _) := p in
  let '(r', g', b') := over_white_px p in
  r <= r' <= 255 /\ g <= g' <= 255 /\ b <= b' <= 255.
Proof.
  destruct p as [[[r g] b] a]. simpl. intros (Hr & Hg & Hb & Ha).
  repeat split; by apply BLEND8_white_bounds.
Qed.

Lemma flattened_ok img : Pil.image_ok img -> Pil.image_ok (flattened img).
Proof.
  intros Hok. rewrite (flattened_raster img Hok).
  destruct Hok as [Hlen Hok]. split; simpl.
  - by rewrite length_map, length_to_rgba.
  - apply Forall_fmap. eapply Forall_impl; [by apply to_rgba_ok |].
    intros [[[r g] b] a] (Hr & Hg & Hb & Ha). simpl.
    pose proof (BLEND8_white_bounds a r Ha Hr).
    pose proof (BLEND8_white_bounds a g Ha Hg).
    pose proof (BLEND8_white_bounds a b Ha Hb).
    unfold Pil.sample_ok in *. lia.
Qed.

Lemma flattened_RGB sz px :
  Pil.image_ok (Pil.Image sz (Pil.RasterRGB px)) ->
  flattened (Pil.Image sz (Pil.RasterRGB px)) = Pil.Image sz (Pil.RasterRGB px).
Proof.
  intros Hok. rewrite (flattened_raster _ Hok). simpl. f_equal. f_equal.
  destruct Hok as [_ Hok]. simpl in Hok.
  induction Hok as [|[[r g] b] px (Hr & Hg & Hb) _ IH]; simpl; [done |].
  assert (Pil.sample_ok 255) as H255 by (unfold Pil.sample_ok; lia).
  rewrite !BLEND8_opaque by done. by rewrite IH.
Qed.

Lemma flattened_idem img : Pil.image_ok img -> flattened (flattened img) = flattened img.
Proof.
  intros Hok. pose proof (flattened_ok img Hok) as Hok'.
  rewrite (flattened_raster img Hok) in *. by apply flattened_RGB.
Qed.

End FlattenedImage.

(** X1.  Flattening is idempotent: once [remove_transparency] has
    written the flattened image, running it again on that file, in
    place, returns and leaves the file system as it was. *)
Theorem X1_reflatten_in_place_is_noop image_path output_path w img :
  fs w !! image_path = Some (File (Png img)) ->
  Pil.image_ok img ->
  fault_free w ->
  fs w !! output_path <> Some Dir ->
  exists w1 w2,
    remove_transparency image_path output_path w = Normal tt w1 /\
    fs w1 !! output_path = Some (File (Png (flattened img))) /\
    remove_transparency output_path output_path w1 = Normal tt w2 /\
    fs w2 = fs w1.
Proof.
  intros Hin Hok Hff Hout.
  destruct (remove_transparency_ok _ _ _ _ Hin Hff Hout) as (w1 & Hrun1 & Hfs1 & _ & Hff1).
  assert (fs w1 !! output_path = Some (File (Png (flattened img)))) as Hout1.
  { rewrite Hfs1. apply lookup_insert_eq. }
  destruct (remove_transparency_ok output_path output_path w1 _ Hout1 Hff1)
    as (w2 & Hrun2 & Hfs2 & _); [by rewrite Hout1 |].
  exists w1, w2. split; [exact Hrun1 |]. split; [exact Hout1 |]. split; [exact Hrun2 |].
  rewrite Hfs2, (flattened_idem img Hok). by apply insert_id.
Qed.

Lemma X1_reflatten_in_place_is_noop_witness :
  exists w1 w2,
    remove_transparency "in.png" "out.png" (one_file_world translucent_icon) = Normal tt w1 /\
    fs w1 !! "out.png" = Some (File (Png (flattened translucent_icon))) /\
    remove_transparency "out.png" "out.png" w1 = Normal tt w2 /\
    fs w2 = fs w1.
Proof.
  apply (X1_reflatten_in_place_is_noop "in.png" "out.png" (one_file_world translucent_icon)).
  - reflexivity.
  - split; [reflexivity |]. simpl. unfold Pil.sample_ok. repeat constructor; lia.
  - constructor.
  - vm_compute. discriminate.
Defined.



(** X3.  A grey image, with or without alpha, is written as an RGB
    image of the same number of pixels whose three samples are equal at
    every pixel. *)
Theorem X3_grey_stays_grey image_path output_path w img :
  fs w !! image_path = Some (File (Png img)) ->
  Pil.image_mode img = Pil.L \/ Pil.image_mode img = Pil.LA ->
  Pil.image_ok img ->
  fault_free w ->
  fs w !! output_path <> Some Dir ->
  exists w' out px,
    remove_transparency image_path output_path w = Normal tt w' /\
    fs w' !! output_path = Some (File (Png out)) /\
    Pil.image_mode out = Pil.RGB /\
    Pil.im out = Pil.RasterRGB px /\
    length px = Pil.npixels img /\
    forall i r g b, px !! i = Some (r, g, b) -> r = g /\ g = b.
Proof.
  intros Hin Hmode Hok Hff Hout.
  destruct (remove_transparency_ok _ _ _ _ Hin Hff Hout) as (w' & Hrun & Hfs & _).
  exists w', (flattened img), (map over_white_px (Pil.to_rgba (Pil.im img))).
  split; [exact Hrun |].
  split; [by rewrite Hfs, lookup_insert_eq |].
  split; [reflexivity |].
  split; [by rewrite (flattened_raster img Hok) |].
  split; [destruct Hok as [Hlen _]; by rewrite length_map, length_to_rgba |].
  intros i r g b. rewrite list_lookup_fmap.
  destruct img as [sz [px|px|px|px]]; simpl in *;
    [| | destruct Hmode; discriminate | destruct Hmode; discriminate];
    rewrite list_lookup_fmap; destruct (px !! i) as [x|]; simpl; try discriminate.
  - intros [= <- <- <-]. done.
  - destruct x as [l a]. intros [= <- <- <-]. done.
Qed.

Lemma X3_grey_stays_grey_witness :
  exists w' out px,
    remove_transparency "in.png" "out.png" (one_file_world grey_icon) = Normal tt w' /\
    fs w' !! "out.png" = Some (File (Png out)) /\
    Pil.image_mode out = Pil.RGB /\
    Pil.im out = Pil.RasterRGB px /\
    length px = Pil.npixels grey_icon /\
    forall i r g b, px !! i = Some (r, g, b) -> r = g /\ g = b.
Proof.
  apply (X3_grey_stays_grey "in.png" "out.png" (one_file_world grey_icon)).
  - reflexivity.
  - right. reflexivity.
  - split; [reflexivity |]. simpl. unfold Pil.sample_ok. repeat constructor; lia.
  - constructor.
  - vm_compute. discriminate.
Defined.

(** ** Inputs that cannot be read *)

(** X4.  When the input path holds no decodable image (it is missing,
    a directory, or a file Pillow does not identify),
    [remove_transparency] returns with the file system unchanged:
    nothing is written, not even at the output path; the only events
    are the read attempt and one line,
    [❌ Error processing <input path>: <message of the exception>]. *)
Theorem X4_unreadable_input_writes_nothing image_path output_path w :
  (forall img, fs w !! image_path <> Some (File (Png img))) ->
  exists msg w',
    remove_transparency image_path output_path w = Normal tt w' /\
    fs w' = fs w /\
    trace w' = trace w ++ [EvRead image_path;
                           EvPrint ("❌ Error processing " +:+ image_path +:+ ": " +:+ msg)].
Proof.
  intros Hbad.
  destruct (remove_transparency_post image_path output_path w)
    as (w' & Hrun & [[_ (img & Himg & _)]
                    | ([cls msg] & w1 & Hbody
                       & ([[Hfs Htr] | ((img & Himg) & _)] & _) & ->)]).
  - by destruct (Hbad img).
  - exists msg. eexists. split; [exact Hrun |]. simpl.
    split; [exact Hfs |]. by rewrite Htr, <- app_assoc.
  - by destruct (Hbad img).
Qed.

Lemma X4_unreadable_input_writes_nothing_witness :
  exists msg w',
    remove_transparency "gone.png" "out.png" (one_file_world opaque_icon) = Normal tt w' /\
    fs w' = fs (one_file_world opaque_icon) /\
    trace w' = trace (one_file_world opaque_icon)
               ++ [EvRead "gone.png";
                   EvPrint ("❌ Error processing " +:+ "gone.png" +:+ ": " +:+ msg)].
Proof.
  apply (X4_unreadable_input_writes_nothing "gone.png" "out.png" (one_file_world opaque_icon)).
  intros img. vm_compute. discriminate.
Defined.

(** X5.  In every world [remove_transparency] leaves every path other
    than [output_path] as it was (the input, when it is another path,
    is kept) and prints exactly one line, last: the success line or an
    error line. *)
Theorem X5_flatten_touches_only_output image_path output_path w :
  exists w' evs line,
    remove_transparency image_path output_path w = Normal tt w' /\
    (forall p, p <> output_path -> fs w' !! p = fs w !! p) /\
    trace w' = trace w ++ evs ++ [EvPrint line] /\
    (forall l, EvPrint l ∉ evs) /\
    (line = fixed_line image_path output_path \/ exists e, line = error_line image_path e).
Proof.
  destruct (remove_transparency_post image_path output_path w)
    as (w' & Hrun & [[_ (img & _ & Hfs & Htr & _)]
                    | (e & w1 & _ & ([[Hfs Htr] | (_ & Hfs & Htr)] & _) & ->)]).
  - exists w', [EvRead image_path; EvWrite output_path], (fixed_line image_path output_path).
    split; [exact Hrun |].
    split; [intros p Hp; rewrite Hfs; by apply lookup_insert_ne |].
    split; [exact Htr |]. split; [| by left].
    intros l Hl. repeat (apply elem_of_cons in Hl as [Hl | Hl]; [discriminate |]).
    by apply not_elem_of_nil in Hl.
  - eexists _, [EvRead image_path], (error_line image_path e).
    split; [exact Hrun |]. simpl.
    split; [intros p _; by rewrite Hfs |].
    split; [by rewrite Htr, <- app_assoc |]. split; [| right; by exists e].
    intros l Hl. repeat (apply elem_of_cons in Hl as [Hl | Hl]; [discriminate |]).
    by apply not_elem_of_nil in Hl.
  - eexists _, [EvRead image_path; EvWrite output_path], (error_line image_path e).
    split; [exact Hrun |]. simpl.
    split; [intros p Hp; rewrite Hfs; by apply lookup_insert_ne |].
    split; [by rewrite Htr, <- app_assoc |]. split; [| right; by exists e].
    intros l Hl. repeat (apply elem_of_cons in Hl as [Hl | Hl]; [discriminate |]).
    by apply not_elem_of_nil in Hl.
Qed.

(** ** Runs in which no rename can raise *)

Section SettledRuns.

Lemma main_without_root w :
  fs w !! app_icon_dir = None -> main w = Normal tt (printed dir_not_found_line w).
Proof.
  intros Hroot. unfold main, bind, Os.path_exists.
  rewrite Hroot. by rewrite bool_decide_eq_false_2 by (intros [? ?]; discriminate).
Qed.


Lemma for_each_split_normal {A} (body : A -> M unit) pre x post w w' :
  for_each body (pre ++ x :: post) w = Normal tt w' ->
  exists wa wb,
    for_each body pre w = Normal tt wa /\
    body x wa = Normal tt wb /\
    for_each body post wb = Normal tt w'.
Proof.
  rewrite for_each_app. unfold bind at 1.
  destruct (for_each body pre w) as [[] wa | e wa]; [| discriminate].
  simpl. unfold bind at 1.
  destruct (body x wa) as [[] wb | e wb] eqn:Hx; [| discriminate].
  intros H. exists wa, wb. auto.
Qed.

(** With every icon settled the run returns; root, settledness and
    fault-freeness carry over to the world it leaves. *)
Lemma settled_run w :
  is_Some (fs w !! app_icon_dir) ->
  (forall n, n ∈ icon_files -> settled n w) ->
  exists w1,
    for_each process_icon icon_files w = Normal tt w1 /\
    main w = Normal tt (World (fs w1) (faults w1) (trace w1 ++ map EvPrint completion_lines)) /\
    (forall n, n ∈ icon_files -> settled n w1) /\
    (fault_free w -> fault_free w1).
Proof.
  intros Hroot Hset.
  destruct (settled_loop_returns icon_files w icon_files_NoDup) as (w1 & Hloop);
    [done | exact Hset |].
  exists w1. split; [exact Hloop |].
  split.
  { rewrite (main_with_root w Hroot). unfold bind. rewrite Hloop. apply print_lines_run. }
  split; [by apply (loop_settles icon_files w w1 icon_files_NoDup) |].
  destruct (loop_step icon_files w) as (_ & _ & Hff). by rewrite Hloop in Hff.
Qed.

(** In such a run the iteration of a listed name starts from a world
    that agrees with the start on the name's paths, and the run ends
    agreeing on them with the end of the iteration. *)
Lemma settled_run_iteration w n :
  is_Some (fs w !! app_icon_dir) ->
  (forall m, m ∈ icon_files -> settled m w) ->
  n ∈ icon_files ->
  exists wa wb w',
    main w = Normal tt w' /\
    process_icon n wa = Normal tt wb /\
    fs wa !! input_path_of n = fs w !! input_path_of n /\
    fs wa !! backup_path_of n = fs w !! backup_path_of n /\
    fs w' !! input_path_of n = fs wb !! input_path_of n /\
    fs w' !! backup_path_of n = fs wb !! backup_path_of n /\
    (fault_free w -> fault_free wa) /\
    (fault_free wb -> fault_free w') /\
    (exists evs, trace w' = trace wb ++ evs).
Proof.
  intros Hroot Hset Hn.
  destruct (settled_run w Hroot Hset) as (w1 & Hloop & Hmain & _ & _).
  destruct (list_elem_of_split _ _ Hn) as (pre & post & Hsplit).
  rewrite Hsplit in Hloop.
  destruct (for_each_split_normal _ _ _ _ _ _ Hloop) as (wa & wb & Hpre & Hiter & Hpost).
  destruct (run_through w pre n post wa Hroot Hsplit Hpre) as (Hin_a & Hbak_a & Hin_e & Hbak_e).
  rewrite Hmain, Hiter in Hin_e, Hbak_e. simpl in Hin_e, Hbak_e.
  destruct (loop_step pre w) as (_ & _ & Hff_pre). rewrite Hpre in Hff_pre.
  destruct (loop_step post wb) as (_ & (evs & Htr & _) & Hff_post).
  rewrite Hpost in Hff_post, Htr. simpl in *.
  exists wa, wb. eexists. split; [exact Hmain |]. simpl.
  split; [exact Hiter |].
  split; [exact Hin_a |]. split; [exact Hbak_a |].
  split; [exact Hin_e |]. split; [exact Hbak_e |].
  split; [exact Hff_pre |]. split; [exact Hff_post |].
  exists (evs ++ map EvPrint completion_lines). by rewrite Htr, app_assoc.
Qed.

(** An iteration on a regular file whose backup path is free of a
    directory leaves that file at the backup path. *)
Lemma process_icon_keeps_original n w f :
  fs w !! input_path_of n = Some (File f) ->
  fs w !! backup_path_of n <> Some Dir ->
  fs (world_of (process_icon n w)) !! backup_path_of n = Some (File f).
Proof.
  intros Hin Hbak. pose proof (input_ne_backup n) as Hne.
  rewrite (process_icon_present _ _ _ Hin). unfold bind.
  rewrite (rename_file _ _ w f Hne Hin Hbak). fold (after_rename n (File f) w).
  destruct (remove_transparency_post (backup_path_of n) (input_path_of n)
              (after_rename n (File f) w))
    as (w' & -> & [[_ (img & _ & Hfs & _)]
                  | (e & w1 & _ & ([[Hfs _] | (_ & Hfs & _)] & _) & ->)]);
    simpl; rewrite Hfs; simpl.
  - rewrite lookup_insert_ne by done. apply lookup_insert_eq.
  - apply lookup_insert_eq.
  - rewrite lookup_insert_ne by done. apply lookup_insert_eq.
Qed.

(** A fault-free iteration on a decodable image flattens it. *)
Lemma process_icon_flattens n w img :
  fs w !! input_path_of n = Some (File (Png img)) ->
  fs w !! backup_path_of n <> Some Dir ->
  fault_free w ->
  exists w',
    process_icon n w = Normal tt w' /\
    fs w' !! input_path_of n = Some (File (Png (flattened img))) /\
    fs w' !! backup_path_of n = Some (File (Png img)) /\
    trace w' = trace w ++ [EvRename (input_path_of n) (backup_path_of n);
                           EvRead (backup_path_of n); EvWrite (input_path_of n);
                           EvPrint (fixed_line (backup_path_of n) (input_path_of n))] /\
    fault_free w'.
Proof.
  intros Hin Hbak Hff. pose proof (input_ne_backup n) as Hne.
  rewrite (process_icon_present _ _ _ Hin). unfold bind.
  rewrite (rename_file _ _ w (Png img) Hne Hin Hbak).
  fold (after_rename n (File (Png img)) w).
  destruct (remove_transparency_ok (backup_path_of n) (input_path_of n)
              (after_rename n (File (Png img)) w) img)
    as (w' & Hrun & Hfs & Htr & Hff'); [apply lookup_insert_eq | exact Hff | |].
  { simpl. rewrite lookup_insert_ne by done. by rewrite lookup_delete_eq. }
  exists w'. split; [exact Hrun |]. rewrite Hfs. simpl.
  split; [apply lookup_insert_eq |].
  split; [rewrite lookup_insert_ne by done; apply lookup_insert_eq |].
  split; [rewrite Htr; simpl; by rewrite <- app_assoc | exact Hff'].
Qed.

Lemma settled_file n w f :
  settled n w -> fs w !! input_path_of n = Some (File f) ->
  fs w !! backup_path_of n <> Some Dir.
Proof. intros [Hnone | [_ Hbak]] Hin; [congruence | exact Hbak]. Qed.

(** A fault-free run over settled icons flattens a decodable icon. *)
Lemma run_flattens w n img :
  is_Some (fs w !! app_icon_dir) ->
  (forall m, m ∈ icon_files -> settled m w) ->
  fault_free w ->
  n ∈ icon_files ->
  fs w !! input_path_of n = Some (File (Png img)) ->
  exists w',
    main w = Normal tt w' /\
    fs w' !! input_path_of n = Some (File (Png (flattened img))) /\
    fs w' !! backup_path_of n = Some (File (Png img)) /\
    EvPrint (fixed_line (backup_path_of n) (input_path_of n)) ∈ trace w' /\
    fault_free w'.
Proof.
  intros Hroot Hset Hff Hn Hin.
  destruct (settled_run_iteration w n Hroot Hset Hn)
    as (wa & wb & w' & Hmain & Hiter & Hin_a & Hbak_a & Hin_e & Hbak_e & Hff_a & Hff_e
        & evs & Htr).
  rewrite Hin in Hin_a.
  destruct (process_icon_flattens n wa img Hin_a) as (wb' & Hiter' & Hin_b & Hbak_b & Htr_b & Hff_b).
  { rewrite Hbak_a. by apply (settled_file n w (Png img)); [apply Hset |]. }
  { by apply Hff_a. }
  rewrite Hiter in Hiter'. injection Hiter' as <-.
  exists w'. split; [exact Hmain |].
  split; [by rewrite Hin_e |]. split; [by rewrite Hbak_e |].
  split; [| by apply Hff_e].
  rewrite Htr, Htr_b. apply elem_of_app. left. apply elem_of_app. right.
  do 3 apply list_elem_of_further. apply list_elem_of_here.
Qed.

End SettledRuns.

(** X6.  In a run where no rename can raise, every listed icon that
    was a regular file has its original content at its [.backup] path
    when the run ends, whether flattening it worked or failed. *)
Theorem X6_run_keeps_originals_in_backup w n f :
  is_Some (fs w !! app_icon_dir) ->
  (forall m, m ∈ icon_files -> settled m w) ->
  n ∈ icon_files ->
  fs w !! input_path_of n = Some (File f) ->
  exists w',
    main w = Normal tt w' /\
    fs w' !! backup_path_of n = Some (File f).
Proof.
  intros Hroot Hset Hn Hin.
  destruct (settled_run_iteration w n Hroot Hset Hn)
    as (wa & wb & w' & Hmain & Hiter & Hin_a & Hbak_a & _ & Hbak_e & _).
  rewrite Hin in Hin_a.
  exists w'. split; [exact Hmain |]. rewrite Hbak_e.
  pose proof (process_icon_keeps_original n wa f Hin_a) as Hkeep.
  rewrite Hiter in Hkeep. apply Hkeep.
  rewrite Hbak_a. by apply (settled_file n w f); [apply Hset |].
Qed.

Lemma X6_run_keeps_originals_in_backup_witness :
  exists w',
    main fresh_icon_world = Normal tt w' /\
    fs w' !! backup_path_of default_icon = Some (File (Png translucent_icon)).
Proof.
  apply (X6_run_keeps_originals_in_backup fresh_icon_world default_icon (Png translucent_icon)).
  - vm_compute. eauto.
  - intros m Hm.
    repeat (apply elem_of_cons in Hm as [-> | Hm]); [| | | by apply not_elem_of_nil in Hm].
    + right. split; [eexists; vm_compute; reflexivity | vm_compute; discriminate].
    + left. vm_compute. reflexivity.
    + left. vm_compute. reflexivity.
  - unfold icon_files, default_icon. set_solver.
  - vm_compute. reflexivity.
Defined.

(** X7.  End to end: when nothing fails, a listed icon that is a
    decodable image ends the run flattened at its own path, with the
    original at the [.backup] path and its success line printed,
    whatever the state of the other two icons. *)
Theorem X7_fault_free_run_flattens_icon w n img :
  is_Some (fs w !! app_icon_dir) ->
  (forall m, m ∈ icon_files -> settled m w) ->
  fault_free w ->
  n ∈ icon_files ->
  fs w !! input_path_of n = Some (File (Png img)) ->
  exists w',
    main w = Normal tt w' /\
    fs w' !! input_path_of n = Some (File (Png (flattened img))) /\
    fs w' !! backup_path_of n = Some (File (Png img)) /\
    EvPrint (fixed_line (backup_path_of n) (input_path_of n)) ∈ trace w'.
Proof.
  intros Hroot Hset Hff Hn Hin.
  destruct (run_flattens w n img Hroot Hset Hff Hn Hin) as (w' & ? & ? & ? & ? & _).
  by exists w'.
Qed.

Lemma X7_fault_free_run_flattens_icon_witness :
  exists w',
    main fresh_icon_world = Normal tt w' /\
    fs w' !! input_path_of default_icon = Some (File (Png (flattened translucent_icon))) /\
    fs w' !! backup_path_of default_icon = Some (File (Png translucent_icon)) /\
    EvPrint (fixed_line (backup_path_of default_icon) (input_path_of default_icon)) ∈ trace w'.
Proof.
  apply (X7_fault_free_run_flattens_icon fresh_icon_world default_icon translucent_icon).
  - vm_compute. eauto.
  - intros m Hm.
    repeat (apply elem_of_cons in Hm as [-> | Hm]); [| | | by apply not_elem_of_nil in Hm].
    + right. split; [eexists; vm_compute; reflexivity | vm_compute; discriminate].
    + left. vm_compute. reflexivity.
    + left. vm_compute. reflexivity.
  - constructor.
  - unfold icon_files, default_icon. set_solver.
  - vm_compute. reflexivity.
Defined.

(** X8.  The icon itself is stable under re-runs: when nothing fails,
    a second run leaves at the icon's path the same flattened image the
    first run wrote. *)
Theorem X8_second_run_keeps_flattened_icon w0 n img :
  is_Some (fs w0 !! app_icon_dir) ->
  (forall m, m ∈ icon_files -> settled m w0) ->
  fault_free w0 ->
  n ∈ icon_files ->
  fs w0 !! input_path_of n = Some (File (Png img)) ->
  Pil.image_ok img ->
  exists w1 w2,
    main w0 = Normal tt w1 /\
    main w1 = Normal tt w2 /\
    fs w1 !! input_path_of n = Some (File (Png (flattened img))) /\
    fs w2 !! input_path_of n = fs w1 !! input_path_of n.
Proof.
  intros Hroot Hset Hff Hn Hin Hok.
  destruct (run_flattens w0 n img Hroot Hset Hff Hn Hin)
    as (w1 & Hmain1 & Hin1 & _ & _ & Hff1).
  assert (is_Some (fs w1 !! app_icon_dir)) as Hroot1.
  { pose proof (root_stays w0 Hroot) as H. by rewrite Hmain1 in H. }
  assert (forall m, m ∈ icon_files -> settled m w1) as Hset1.
  { destruct (settled_run w0 Hroot Hset) as (w1' & _ & Hmain1' & Hset1 & _).
    rewrite Hmain1 in Hmain1'. injection Hmain1' as Hw1.
    intros m Hm. apply (settled_frame m w1'); [by rewrite Hw1 | by rewrite Hw1 | by apply Hset1]. }
  destruct (run_flattens w1 n (flattened img) Hroot1 Hset1 Hff1 Hn Hin1)
    as (w2 & Hmain2 & Hin2 & _).
  exists w1, w2. split; [exact Hmain1 |]. split; [exact Hmain2 |]. split; [exact Hin1 |].
  by rewrite Hin2, Hin1, (flattened_idem img Hok).
Qed.

Lemma X8_second_run_keeps_flattened_icon_witness :
  exists w1 w2,
    main fresh_icon_world = Normal tt w1 /\
    main w1 = Normal tt w2 /\
    fs w1 !! input_path_of default_icon = Some (File (Png (flattened translucent_icon))) /\
    fs w2 !! input_path_of default_icon = fs w1 !! input_path_of default_icon.
Proof.
  apply (X8_second_run_keeps_flattened_icon fresh_icon_world default_icon translucent_icon).
  - vm_compute. eauto.
  - intros m Hm.
    repeat (apply elem_of_cons in Hm as [-> | Hm]); [| | | by apply not_elem_of_nil in Hm].
    + right. split; [eexists; vm_compute; reflexivity | vm_compute; discriminate].
    + left. vm_compute. reflexivity.
    + left. vm_compute. reflexivity.
  - constructor.
  - unfold icon_files, default_icon. set_solver.
  - vm_compute. reflexivity.
  - split; [reflexivity |]. simpl. unfold Pil.sample_ok. repeat constructor; lia.
Defined.

(** ** The order of events in a run *)

Section Ordering.

Lemma process_icon_events n w :
  exists evs,
    trace (world_of (process_icon n w)) = trace w ++ evs /\ iteration_events n evs.
Proof.
  destruct (process_icon_cases n w)
    as [[_ ->] | [(n0 & e & _ & _ & ->) | (n0 & _ & ->)]]; simpl.
  - eexists. split; [reflexivity | constructor].
  - exists []. rewrite app_nil_r. split; [done | constructor].
  - destruct (remove_transparency_post (backup_path_of n) (input_path_of n)
                (after_rename n n0 w))
      as (w' & -> & [[_ (img & _ & _ & Htr & _)]
                    | (e & w1 & _ & ([[_ Htr] | (_ & _ & Htr)] & _) & ->)]);
      simpl; rewrite Htr; simpl; rewrite <- ?app_assoc; simpl;
      (eexists; split; [reflexivity | constructor]).
Qed.

Lemma backed_up_app xs ys :
  backed_up_before_write xs -> backed_up_before_write ys ->
  backed_up_before_write (xs ++ ys).
Proof.
  intros Hxs Hys i p Hi.
  destruct (decide (i < length xs)%nat) as [Hlt | Hge].
  - rewrite lookup_app_l in Hi by done.
    destruct (Hxs i p Hi) as (j & -> & Hj & Hj').
    exists j. split; [done |].
    split; apply lookup_app_l_Some; done.
  - rewrite lookup_app_r in Hi by lia.
    destruct (Hys _ p Hi) as (j & Hij & Hj & Hj').
    exists (length xs + j)%nat. split; [lia |].
    split.
    + rewrite lookup_app_r by lia. by replace (length xs + j - length xs)%nat with j by lia.
    + rewrite lookup_app_r by lia. by replace (S (length xs + j) - length xs)%nat with (S j) by lia.
Qed.

Lemma backed_up_iteration n evs : iteration_events n evs -> backed_up_before_write evs.
Proof.
  intros [| | |e|e] i p Hi.
  - destruct i as [|i]; simpl in Hi; [discriminate | by destruct i].
  - by destruct i.
  - destruct i as [|[|[|[|i]]]]; simpl in Hi; try discriminate.
    injection Hi as <-. by exists 0%nat.
  - destruct i as [|[|[|i]]]; simpl in Hi; discriminate.
  - destruct i as [|[|[|[|i]]]]; simpl in Hi; try discriminate.
    injection Hi as <-. by exists 0%nat.
Qed.

Lemma backed_up_prints lines : backed_up_before_write (map EvPrint lines).
Proof.
  intros i p Hi. rewrite list_lookup_fmap in Hi.
  destruct (lines !! i); discriminate.
Qed.

Lemma loop_backed_up names w :
  exists evs,
    trace (world_of (for_each process_icon names w)) = trace w ++ evs /\
    backed_up_before_write evs.
Proof.
  revert w. induction names as [|n names IH]; intros w; simpl.
  - exists []. rewrite app_nil_r. split; [done |]. intros i p Hi. by destruct i.
  - rewrite world_of_bind.
    destruct (process_icon_events n w) as (evs1 & Htr1 & Hev1).
    apply backed_up_iteration in Hev1.
    destruct (process_icon n w) as [[] w1 | e w1]; simpl in Htr1.
    + destruct (IH w1) as (evs & Htr & Hev).
      exists (evs1 ++ evs). split; [by rewrite Htr, Htr1, app_assoc |].
      by apply backed_up_app.
    + by exists evs1.
Qed.

End Ordering.

(** X9.  In every run, however it ends, each file write is preceded,
    two events earlier, by the rename of the written path to its
    [.backup] name, and then by the read of that backup: the script
    never writes an icon it has not just moved aside. *)
Theorem X9_every_write_follows_its_backup w :
  exists evs,
    trace (world_of (main w)) = trace w ++ evs /\
    backed_up_before_write evs.
Proof.
  destruct (fs w !! app_icon_dir) as [root|] eqn:Hroot.
  - rewrite (main_with_root w) by (rewrite Hroot; eauto). rewrite world_of_bind.
    destruct (loop_backed_up icon_files w) as (evs & Htr & Hev).
    destruct (for_each process_icon icon_files w) as [[] w1 | e w1]; simpl in Htr.
    + rewrite print_lines_run. simpl.
      exists (evs ++ map EvPrint completion_lines).
      split; [by rewrite Htr, app_assoc |].
      apply backed_up_app; [exact Hev | apply backed_up_prints].
    + by exists evs.
  - rewrite (main_without_root w Hroot).
    exists [EvPrint dir_not_found_line]. split; [reflexivity |].
    apply (backed_up_prints [dir_not_found_line]).
Qed.

(** ** Directories and other paths *)

Section Directories.

Lemma rename_onto_dir src dst w f :
  src <> dst ->
  fs w !! src = Some (File f) ->
  fs w !! dst = Some Dir ->
  exists e, Os.rename src dst w = Raise e w.
Proof.
  intros Hne Hsrc Hdst. unfold Os.rename. rewrite Hsrc, Hdst.
  destruct (String.eqb_spec src dst) as [|_]; [done | eauto].
Qed.

(** An iteration whose icon path holds no directory neither makes nor
    removes a directory. *)
Lemma process_icon_dirs n w :
  fs w !! input_path_of n <> Some Dir ->
  forall p, fs (world_of (process_icon n w)) !! p = Some Dir <-> fs w !! p = Some Dir.
Proof.
  intros Hin p. pose proof (input_ne_backup n) as Hne.
  destruct (fs w !! input_path_of n) as [[f|]|] eqn:Hn; [| done |].
  2:{ by rewrite (process_icon_missing n w Hn). }
  rewrite (process_icon_present _ _ _ Hn). unfold bind.
  assert (fs w !! backup_path_of n = Some Dir \/
          fs w !! backup_path_of n <> Some Dir) as [Hbak | Hbak].
  { destruct (fs w !! backup_path_of n) as [[g|]|]; [right | left | right]; done. }
  - destruct (rename_onto_dir _ _ w f Hne Hn Hbak) as (e & ->). done.
  - rewrite (rename_file _ _ w f Hne Hn Hbak). fold (after_rename n (File f) w).
    destruct (remove_transparency_post (backup_path_of n) (input_path_of n)
                (after_rename n (File f) w))
      as (w' & -> & [[_ (img & _ & Hfs & _)]
                    | (e & w1 & _ & ([[Hfs _] | (_ & Hfs & _)] & _) & ->)]);
      simpl; rewrite Hfs; simpl.
    1, 3: destruct (decide (p = input_path_of n)) as [-> | Hp1];
      [rewrite lookup_insert_eq, Hn; split; discriminate |];
      rewrite lookup_insert_ne by done;
      destruct (decide (p = backup_path_of n)) as [-> | Hp2];
      [rewrite lookup_insert_eq; split; [discriminate | done] |];
      by rewrite lookup_insert_ne, lookup_delete_ne.
    destruct (decide (p = backup_path_of n)) as [-> | Hp2].
    { rewrite lookup_insert_eq. split; [discriminate | done]. }
    rewrite lookup_insert_ne by done.
    destruct (decide (p = input_path_of n)) as [-> | Hp1].
    { rewrite lookup_delete_eq, Hn. split; discriminate. }
    by rewrite lookup_delete_ne.
Qed.

Lemma loop_dirs names w :
  (forall n, n ∈ names -> fs w !! input_path_of n <> Some Dir) ->
  forall p, fs (world_of (for_each process_icon names w)) !! p = Some Dir
            <-> fs w !! p = Some Dir.
Proof.
  revert w. induction names as [|n names IH]; intros w Hin p; simpl; [done |].
  rewrite world_of_bind.
  pose proof (process_icon_dirs n w (Hin n (list_elem_of_here _ _))) as Hdirs.
  destruct (process_icon n w) as [[] w1 | e w1]; simpl in Hdirs; [| apply Hdirs].
  rewrite IH; [apply Hdirs |].
  intros m Hm. rewrite Hdirs. by apply Hin, list_elem_of_further.
Qed.

End Directories.

(** X10.  When no listed icon path is a directory, a run, however it
    ends, leaves every path other than the three icon paths and their
    [.backup] paths untouched, and neither creates nor removes a
    directory. *)
Theorem X10_run_changes_only_icon_paths w :
  (forall n, n ∈ icon_files -> fs w !! input_path_of n <> Some Dir) ->
  (forall p,
     (forall n, n ∈ icon_files -> p <> input_path_of n /\ p <> backup_path_of n) ->
     fs (world_of (main w)) !! p = fs w !! p) /\
  (forall p, fs (world_of (main w)) !! p = Some Dir <-> fs w !! p = Some Dir).
Proof.
  intros Hin.
  destruct (fs w !! app_icon_dir) as [root|] eqn:Hroot.
  2:{ rewrite (main_without_root w Hroot). by split. }
  rewrite (main_with_root w) by (rewrite Hroot; eauto).
  split.
  - destruct (rest_of_run_step icon_files w) as (Hfs & _). exact Hfs.
  - intros p. rewrite world_of_bind.
    pose proof (loop_dirs icon_files w Hin p) as Hdirs.
    destruct (for_each process_icon icon_files w) as [[] w1 | e w1]; [| exact Hdirs].
    by rewrite print_lines_run.
Qed.

Lemma X10_run_changes_only_icon_paths_witness :
  (forall p,
     (forall n, n ∈ icon_files -> p <> input_path_of n /\ p <> backup_path_of n) ->
     fs (world_of (main dir_at_backup_world)) !! p = fs dir_at_backup_world !! p) /\
  (forall p, fs (world_of (main dir_at_backup_world)) !! p = Some Dir
             <-> fs dir_at_backup_world !! p = Some Dir).
Proof.
  apply (X10_run_changes_only_icon_paths dir_at_backup_world).
  intros n Hin.
  repeat (apply elem_of_cons in Hin as [-> | Hin]); [| | | by apply not_elem_of_nil in Hin];
    vm_compute; discriminate.
Defined.

(** ** A directory without icons *)

Section AllMissing.

Lemma loop_all_missing names w :
  (forall n, n ∈ names -> fs w !! input_path_of n = None) ->
  for_each process_icon names w
  = Normal tt (World (fs w) (faults w)
                 (trace w ++ map (fun n => EvPrint (not_found_line n)) names)).
Proof.
  revert w. induction names as [|n names IH]; intros w Hmiss; simpl.
  - rewrite app_nil_r. by destruct w.
  - unfold bind. rewrite (process_icon_missing n w) by apply Hmiss, list_elem_of_here.
    rewrite IH; simpl.
    + by rewrite <- app_assoc.
    + intros m Hm. by apply Hmiss, list_elem_of_further.
Qed.

End AllMissing.

(** X11.  When the directory exists and all three icons are missing,
    the run changes no file, makes no Pillow call (the fault schedule
    is untouched) and prints the three "not found" notices in list
    order, then the completion lines. *)
Theorem X11_empty_directory_only_reports w :
  is_Some (fs w !! app_icon_dir) ->
  (forall n, n ∈ icon_files -> fs w !! input_path_of n = None) ->
  main w
  = Normal tt (World (fs w) (faults w)
                 (trace w ++ map (fun n => EvPrint (not_found_line n)) icon_files
                          ++ map EvPrint completion_lines)).
Proof.
  intros Hroot Hmiss. rewrite (main_with_root w Hroot). unfold bind.
  rewrite (loop_all_missing icon_files w Hmiss), print_lines_run. simpl.
  by rewrite <- app_assoc.
Qed.

Lemma X11_empty_directory_only_reports_witness :
  main empty_icon_dir_world
  = Normal tt (World (fs empty_icon_dir_world) (faults empty_icon_dir_world)
                 (trace empty_icon_dir_world
                  ++ map (fun n => EvPrint (not_found_line n)) icon_files
                  ++ map EvPrint completion_lines)).
Proof.
  apply (X11_empty_directory_only_reports empty_icon_dir_world).
  - vm_compute. eauto.
  - intros n Hin.
    repeat (apply elem_of_cons in Hin as [-> | Hin]); [| | | by apply not_elem_of_nil in Hin];
      vm_compute; reflexivity.
Defined.

(** ** Missing icons stay missing *)

Section NeverRestores.

Lemma loop_keeps_missing names w n :
  n ∈ icon_files ->
  (forall m, m ∈ names -> m ∈ icon_files) ->
  fs w !! input_path_of n = None ->
  let w' := world_of (for_each process_icon names w) in
  fs w' !! input_path_of n = None /\
  fs w' !! backup_path_of n = fs w !! backup_path_of n.
Proof.
  intros Hn. revert w. induction names as [|m names IH]; intros w Hsub Hmiss; simpl; [done |].
  rewrite world_of_bind.
  assert (fs (world_of (process_icon m w)) !! input_path_of n = None /\
          fs (world_of (process_icon m w)) !! backup_path_of n
          = fs w !! backup_path_of n) as [Hin1 Hbak1].
  { destruct (decide (m = n)) as [-> | Hne].
    - by rewrite (process_icon_missing n w Hmiss).
    - destruct (process_icon_step m w) as (Hfs & _).
      destruct (icon_paths_disjoint n m Hn (Hsub m (list_elem_of_here _ _)) (not_eq_sym Hne))
        as (? & ? & ? & ?).
      rewrite !Hfs by done. done. }
  destruct (process_icon m w) as [[] w1 | e w1]; simpl in *; [| done].
  destruct (IH w1) as [Hin2 Hbak2]; [intros k Hk; by apply Hsub, list_elem_of_further | done |].
  by rewrite Hbak2.
Qed.

End NeverRestores.

(** X12.  The script never restores an icon: a listed icon that is
    missing when a run starts is still missing when the run ends, and
    whatever is at its [.backup] path (the leftover of a failed
    flatten, say) stays there. *)
Theorem X12_missing_icon_is_never_restored w n :
  n ∈ icon_files ->
  fs w !! input_path_of n = None ->
  fs (world_of (main w)) !! input_path_of n = None /\
  fs (world_of (main w)) !! backup_path_of n = fs w !! backup_path_of n.
Proof.
  intros Hn Hmiss.
  destruct (fs w !! app_icon_dir) as [root|] eqn:Hroot.
  2:{ by rewrite (main_without_root w Hroot). }
  rewrite (main_with_root w) by (rewrite Hroot; eauto). rewrite world_of_bind.
  pose proof (loop_keeps_missing icon_files w n Hn (fun m Hm => Hm) Hmiss) as Hloop.
  destruct (for_each process_icon icon_files w) as [[] w1 | e w1]; [| exact Hloop].
  by rewrite print_lines_run.
Qed.

Lemma X12_missing_icon_is_never_restored_witness :
  fs (world_of (main corrupt_icon_world)) !! input_path_of dark_icon = None /\
  fs (world_of (main corrupt_icon_world)) !! backup_path_of dark_icon
  = fs corrupt_icon_world !! backup_path_of dark_icon.
Proof.
  apply (X12_missing_icon_is_never_restored corrupt_icon_world dark_icon).
  - unfold icon_files, dark_icon. set_solver.
  - vm_compute. reflexivity.
Defined.

(** ** The console output *)

Section Console.

Lemma printed_lines_app xs ys : printed_lines (xs ++ ys) = printed_lines xs ++ printed_lines ys.
Proof.
  induction xs as [|[line| | |] xs IH]; simpl; [done | by rewrite IH | done | done | done].
Qed.

Lemma printed_lines_prints lines : printed_lines (map EvPrint lines) = lines.
Proof. induction lines as [|l lines IH]; simpl; [done | by rewrite IH]. Qed.

(** An iteration that returns prints exactly one line, a status line
    of its icon. *)
Lemma process_icon_status n w w' :
  process_icon n w = Normal tt w' ->
  exists evs line,
    trace w' = trace w ++ evs /\ printed_lines evs = [line] /\ status_line n line.
Proof.
  destruct (process_icon_cases n w)
    as [[_ ->] | [(n0 & e & _ & _ & ->) | (n0 & _ & ->)]]; [| done |].
  - intros [= <-]. exists [EvPrint (not_found_line n)], (not_found_line n).
    split; [done |]. split; [done | by left].
  - destruct (remove_transparency_post (backup_path_of n) (input_path_of n)
                (after_rename n n0 w))
      as (w2 & -> & [[_ (img & _ & _ & Htr & _)]
                    | (e & w1 & _ & ([[_ Htr] | (_ & _ & Htr)] & _) & ->)]);
      intros [= <-]; simpl; rewrite Htr; simpl; rewrite <- ?app_assoc; simpl.
    + eexists _, _. split; [reflexivity |]. split; [reflexivity |]. right. by left.
    + eexists _, _. split; [reflexivity |]. split; [reflexivity |]. right. right. by exists e.
    + eexists _, _. split; [reflexivity |]. split; [reflexivity |]. right. right. by exists e.
Qed.

Lemma loop_status names w w' :
  for_each process_icon names w = Normal tt w' ->
  exists evs lines,
    trace w' = trace w ++ evs /\
    printed_lines evs = lines /\
    Forall2 status_line names lines.
Proof.
  revert w. induction names as [|n names IH]; intros w; simpl.
  - intros [= <-]. exists [], []. rewrite app_nil_r. by repeat split.
  - unfold bind. destruct (process_icon n w) as [[] w1 | e w1] eqn:Hiter; [| done].
    intros Hloop.
    destruct (process_icon_status n w w1 Hiter) as (evs1 & line & Htr1 & Hp1 & Hst).
    destruct (IH w1 Hloop) as (evs & lines & Htr & Hp & Hall).
    exists (evs1 ++ evs), (line :: lines).
    split; [by rewrite Htr, Htr1, app_assoc |].
    split; [by rewrite printed_lines_app, Hp1, Hp |].
    by constructor.
Qed.

End Console.

(** X13.  When no rename can raise, the console output of the run is
    one status line per listed icon, in list order (not found, fixed,
    or error), followed by the completion lines. *)
Theorem X13_console_of_a_completed_run w :
  is_Some (fs w !! app_icon_dir) ->
  (forall n, n ∈ icon_files -> settled n w) ->
  exists w' evs lines,
    main w = Normal tt w' /\
    trace w' = trace w ++ evs /\
    printed_lines evs = lines ++ completion_lines /\
    Forall2 status_line icon_files lines.
Proof.
  intros Hroot Hset.
  destruct (settled_run w Hroot Hset) as (w1 & Hloop & Hmain & _).
  destruct (loop_status icon_files w w1 Hloop) as (evs & lines & Htr & Hp & Hall).
  eexists _, (evs ++ map EvPrint completion_lines), lines.
  split; [exact Hmain |].
  split; [simpl; by rewrite Htr, app_assoc |].
  split; [by rewrite printed_lines_app, Hp, printed_lines_prints | exact Hall].
Qed.

Lemma X13_console_of_a_completed_run_witness :
  exists w' evs lines,
    main corrupt_icon_world = Normal tt w' /\
    trace w' = trace corrupt_icon_world ++ evs /\
    printed_lines evs = lines ++ completion_lines /\
    Forall2 status_line icon_files lines.
Proof.
  apply (X13_console_of_a_completed_run corrupt_icon_world).
  - vm_compute. eauto.
  - intros m Hm.
    repeat (apply elem_of_cons in Hm as [-> | Hm]); [| | | by apply not_elem_of_nil in Hm].
    + right. split; [eexists; vm_compute; reflexivity | vm_compute; discriminate].
    + left. vm_compute. reflexivity.
    + left. vm_compute. reflexivity.
Defined.
